(** * xvisbell: a visual bell for X11

    A shallow embedding of [xvisbell.c] (the C program the Makefile builds) and
    the properties of its flash controller, its command-line parsing and its
    window set-up.

    Conventions of the embedding.
    - The platform is LP64, as on the Linux and macOS targets of the program:
      [int] and [unsigned int] have 32 bits, [long] and [unsigned long] 64.
    - Integers are values of [Z].  Conversions between integer types are
      written out ([to_int], [to_uint], [to_long], [to_ulong]).  The fields of
      a [struct timespec] are [long]; arithmetic on them is signed, so C gives
      it a meaning only while it does not overflow, and the embedding computes
      it in [Z].
    - Calls into Xlib, the C library and the kernel are recorded in a trace of
      [action]s; what those calls answer (clock readings, the outcome of
      [pselect], pending X events, the colour table of the server) is an
      explicit input of the function that makes them. *)

From Stdlib Require Import ZArith List String Ascii Bool Lia.
Import ListNotations.
Open Scope string_scope.
Open Scope list_scope.
Open Scope Z_scope.

(** ** Integer types *)

Module CInt.

Definition INT_MAX : Z := 2147483647.
Definition INT_MIN : Z := -2147483648.
Definition UINT_MAX : Z := 4294967295.
Definition LONG_MAX : Z := 9223372036854775807.
Definition LONG_MIN : Z := -9223372036854775808.
Definition ULONG_MAX : Z := 18446744073709551615.

(** Conversion to an unsigned type of [w] bits: reduction modulo [2^w]. *)
Definition to_unsigned (w : Z) (z : Z) : Z := z mod 2 ^ w.

(** Conversion to a signed type of [w] bits (two's complement, as gcc and
    clang define the out-of-range case). *)
Definition to_signed (w : Z) (z : Z) : Z :=
  let u := to_unsigned w z in
  if u <? 2 ^ (w - 1) then u else u - 2 ^ w.

Definition to_int : Z -> Z := to_signed 32.
Definition to_uint : Z -> Z := to_unsigned 32.
Definition to_long : Z -> Z := to_signed 64.
Definition to_ulong : Z -> Z := to_unsigned 64.

End CInt.

(** ** Time *)

(** [struct timespec]: seconds and nanoseconds, both [long]. *)
Record timespec : Type := mk_timespec { tv_sec : Z; tv_nsec : Z }.

Definition NSEC_PER_SEC : Z := 1000000000.

(** The instant or length a [timespec] denotes, in nanoseconds. *)
Definition nanos (t : timespec) : Z := tv_sec t * NSEC_PER_SEC + tv_nsec t.

(** A [timespec] in the form the system calls produce and accept:
    [0 <= tv_nsec < 10^9], [0 <= tv_sec]. *)
Definition timespec_valid (t : timespec) : bool :=
  (0 <=? tv_sec t) && (0 <=? tv_nsec t) && (tv_nsec t <? NSEC_PER_SEC).

(** [timespec_diff]: the difference between [start] and [end], or [{0, 0}]
    when [end] is before [start].  The sum [1.0e9 + end->tv_nsec -
    start->tv_nsec] is computed in [double] and converted back to [long];
    every operand and result is an integer below [2^53] in absolute value
    whenever the nanosecond fields are, so the sum is the exact integer. *)
Definition timespec_diff (start end_ : timespec) : timespec :=
  if (tv_sec start >? tv_sec end_)
     || ((tv_sec start =? tv_sec end_) && (tv_nsec start >? tv_nsec end_))
  then mk_timespec 0 0
  else if tv_nsec end_ - tv_nsec start <? 0
  then mk_timespec (tv_sec end_ - tv_sec start - 1)
                   (1000000000 + tv_nsec end_ - tv_nsec start)
  else mk_timespec (tv_sec end_ - tv_sec start)
                   (tv_nsec end_ - tv_nsec start).

(** The two statements that follow every [clock_gettime(CLOCK_MONOTONIC,
    &end_time)] of the program: [end_time.tv_sec += duration->tv_sec;
    end_time.tv_nsec += duration->tv_nsec;].  No carry is propagated. *)
Definition add_duration (t duration : timespec) : timespec :=
  mk_timespec (tv_sec t + tv_sec duration) (tv_nsec t + tv_nsec duration).

(** [struct timespec duration = {bell.duration / 1000,
    (bell.duration % 1000) * 1000000}] of [main], for [bell.duration] in
    milliseconds. *)
Definition duration_of_ms (ms : Z) : timespec :=
  mk_timespec (ms / 1000) ((ms mod 1000) * 1000000).

(** ** Effects *)

(** An argument of a [printf] call: a string for [%s], a character for
    [%c], and for [%d] the [int] that [printf] reads and prints. *)
Inductive printf_arg : Type :=
| PStr (s : string)
| PInt (z : Z)
| PChar (c : ascii).

(** What the program does to the world, in program order.  [ClockGettime t]
    is a call of [clock_gettime(CLOCK_MONOTONIC, _)] that read [t];
    [Set_end_time t] is the completed assignment of [t] to the variable
    [end_time] (the reading and the two additions after it).  [Pselect] and
    [Nanosleep] carry the timeout they are called with; a null timeout
    pointer would be [Pselect None].  A format string is kept as the source
    spells it, escapes included. *)
Inductive action : Type :=
| Printf (fmt : string) (args : list printf_arg)
| XOpenDisplay
| XkbSelectEvents
| XkbSetAutoResetControls
| XkbChangeEnabledControls
| XAllocNamedColor (name : string)
| XCreateWindow (x y : Z) (width height : Z) (background_pixel : Z)
| XMapRaised
| XUnmapWindow
| XFlush
| ClockGettime (t : timespec)
| Set_end_time (t : timespec)
| Pselect (timeout : option timespec)
| Nanosleep (req : timespec).

(** How a run ends: the process exited with a status, or the inputs given to
    the model were used up while the program was still running. *)
Inductive outcome : Type :=
| Exited (status : Z)
| Running.

(** ** The flash controller *)

(** The two variables of [main] the event loop reads and writes. *)
Record loop_state : Type := mk_state { visible : bool; end_time : timespec }.

(** [main] declares [end_time] without a value and sets [visible = false];
    [garbage] is whatever the stack holds. *)
Definition initial_state (garbage : timespec) : loop_state :=
  mk_state false garbage.

Definition is_zero (t : timespec) : bool :=
  (tv_sec t =? 0) && (tv_nsec t =? 0).

(** [update_timeout_and_hide]: reads the clock ([now]), sets [*timeout] and,
    when the timeout is [{0, 0}], unmaps the window and clears [*visible].
    Returns the new [*timeout], the state and the calls made. *)
Definition update_timeout_and_hide (now : timespec) (st : loop_state)
  : timespec * loop_state * list action :=
  let timeout := timespec_diff now (end_time st) in
  if is_zero timeout
  then (timeout, mk_state false (end_time st), [ClockGettime now; XUnmapWindow])
  else (timeout, st, [ClockGettime now]).

(** *** The readiness wait *)

Definition EINTR : Z := 4.
Definition EINVAL : Z := 22.

(** What one call of [pselect] answers: the number of ready descriptors
    ([0] when the timeout expired), or [-1] with an [errno]. *)
Inductive select_result : Type :=
| SelReady (n : Z)
| SelError (errno : Z).

(** [pselect(2)], as POSIX and the Linux and BSD kernels have it: a timeout
    that is not a valid [timespec] fails at once with [EINVAL]; otherwise the
    call answers what the environment makes it answer ([None]: the
    environment's script has no answer left, the call is still blocked). *)
Definition pselect (timeout : option timespec) (answer : option select_result)
  : option select_result :=
  match timeout with
  | Some t => if timespec_valid t then answer else Some (SelError EINVAL)
  | None => answer
  end.

Inductive wait_result : Type :=
| Woke
| SelectFailed (errno : Z)
| Blocked.

(** The label [x11select] of [main]: [pselect] on the X connection with
    [&timeout], tried again as long as it fails with [EINTR]; any other
    failure prints a message and leaves [main] with status 1. *)
Fixpoint x11select (timeout : timespec) (answers : list select_result)
  : list action * wait_result :=
  let call := Pselect (Some timeout) in
  match pselect (Some timeout) (hd_error answers) with
  | None => ([call], Blocked)
  | Some (SelReady _) => ([call], Woke)
  | Some (SelError errno) =>
      if errno =? EINTR
      then match answers with
           | [] => ([call], Blocked)
           | _ :: rest =>
               let (tr, r) := x11select timeout rest in (call :: tr, r)
           end
      else ([call; Printf "Error in select() (errno %d)\n" [PInt errno]],
            SelectFailed errno)
  end.

(** *** Draining the events *)

Definition XkbBellNotify : Z := 8.

(** A pending X event, as far as the loop looks at it: its [xkb_type] field,
    and what the clock reads when the loop handles it. *)
Record pending_event : Type :=
  mk_event { xkb_type : Z; handled_at : timespec }.

(** The body of [while (XPending(display))] for one event. *)
Definition handle_event (duration : timespec) (st : loop_state)
  (ev : pending_event) : loop_state * list action :=
  if negb (xkb_type ev =? XkbBellNotify) then (st, [])
  else
    let deadline := add_duration (handled_at ev) duration in
    (mk_state true deadline,
     [XMapRaised; ClockGettime (handled_at ev); Set_end_time deadline]).

Fixpoint drain_events (duration : timespec) (st : loop_state)
  (evs : list pending_event) : loop_state * list action :=
  match evs with
  | [] => (st, [])
  | ev :: rest =>
      let (st1, tr1) := handle_event duration st ev in
      let (st2, tr2) := drain_events duration st1 rest in
      (st2, tr1 ++ tr2)
  end.

(** *** One turn of [for (;;)] *)

(** What the environment contributes to one iteration: the clock reading of
    the check before the wait and of the check after it (each read only while
    the window is visible), the answers of the successive [pselect] calls, and
    the events [XPending] reports afterwards. *)
Record iteration : Type := mk_iteration {
  clock_before : timespec;
  select_answers : list select_result;
  clock_after : timespec;
  pending : list pending_event
}.

(** The timeout [main] hands to [pselect] in an iteration that starts in
    state [st], with the state after the first check and the calls made:
    [timeout] starts as [{0, 0}] and is updated only while visible. *)
Definition wait_timeout (st : loop_state) (now : timespec)
  : timespec * loop_state * list action :=
  if visible st then update_timeout_and_hide now st
  else (mk_timespec 0 0, st, []).

(** How an iteration ends, with the state it leaves: the loop goes on, or the
    run stops there. *)
Inductive step_result : Type :=
| Continue (st : loop_state)
| Stop (st : loop_state) (o : outcome).

Definition loop_iteration (duration : timespec) (st : loop_state)
  (it : iteration) : list action * step_result :=
  let '(timeout, st1, tr1) := wait_timeout st (clock_before it) in
  let (tr2, w) := x11select timeout (select_answers it) in
  match w with
  | SelectFailed _ => (tr1 ++ tr2, Stop st1 (Exited 1))
  | Blocked => (tr1 ++ tr2, Stop st1 Running)
  | Woke =>
      let '(_, st2, tr3) :=
        if visible st1 then update_timeout_and_hide (clock_after it) st1
        else (timeout, st1, []) in
      let (st3, tr4) := drain_events duration st2 (pending it) in
      (tr1 ++ tr2 ++ tr3 ++ tr4, Continue st3)
  end.

(** The loop [for (;;)] of [main] over a script of iterations.  Returns the
    calls made, the state reached and how the run stands. *)
Fixpoint main_loop (duration : timespec) (st : loop_state)
  (script : list iteration) : list action * loop_state * outcome :=
  match script with
  | [] => ([], st, Running)
  | it :: rest =>
      match loop_iteration duration st it with
      | (tr, Stop st1 o) => (tr, st1, o)
      | (tr, Continue st1) =>
          let '(tr', st2, o) := main_loop duration st1 rest in
          (tr ++ tr', st2, o)
      end
  end.

(** *** One-shot mode *)

(** The loop [while (visible)] of [flash_once_and_exit]; [visible] is never
    cleared there, the loop is left by [exit(0)].  [clock] holds the reading
    of each iteration. *)
Fixpoint flash_wait (end_time : timespec) (clock : list timespec)
  : list action * outcome :=
  match clock with
  | [] => ([], Running)
  | now :: rest =>
      let timeout := timespec_diff now end_time in
      if is_zero timeout
      then ([ClockGettime now; XUnmapWindow], Exited 0)
      else
        let (tr, o) := flash_wait end_time rest in
        (ClockGettime now :: Nanosleep timeout :: tr, o)
  end.

(** [flash_once_and_exit]: [start] is the first clock reading. *)
Definition flash_once_and_exit (duration : timespec) (start : timespec)
  (clock : list timespec) : list action * outcome :=
  let end_time := add_duration start duration in
  let (tr, o) := flash_wait end_time clock in
  (ClockGettime start :: Set_end_time end_time :: XMapRaised :: XFlush :: tr, o).

(** ** Command-line parsing *)

(** *** [strtol] and [strtoul] of the C library, base 10

    As ISO C (7.22.1.4) specifies them: white space is skipped, an optional
    sign and the longest run of decimal digits are taken as the subject
    sequence; without a digit no conversion is done and [*endptr] is the
    input itself.  A value out of range is clamped and [errno] becomes
    [ERANGE].  Each function returns the value, the string [*endptr] points
    to, and whether [errno] is [ERANGE] afterwards (the callers set [errno]
    to 0 before the call). *)

Definition isspace (c : ascii) : bool :=
  let n := N_of_ascii c in
  (N.eqb n 32 || (N.leb 9 n && N.leb n 13))%bool.

Definition digit_of (c : ascii) : option Z :=
  let n := Z.of_N (N_of_ascii c) in
  if (48 <=? n) && (n <=? 57) then Some (n - 48) else None.

Fixpoint skip_spaces (s : string) : string :=
  match s with
  | String c r => if isspace c then skip_spaces r else s
  | EmptyString => s
  end.

(** The optional sign: whether it is a minus, and what follows it. *)
Definition take_sign (s : string) : bool * string :=
  match s with
  | String c r =>
      if Ascii.eqb c "-" then (true, r)
      else if Ascii.eqb c "+" then (false, r)
      else (false, s)
  | EmptyString => (false, s)
  end.

(** The longest run of digits at the head of [s]: its value on top of [acc],
    its length, and the rest of the string. *)
Fixpoint take_digits (s : string) (acc : Z) : Z * nat * string :=
  match s with
  | String c r =>
      match digit_of c with
      | Some d =>
          let '(v, n, rest) := take_digits r (acc * 10 + d) in (v, S n, rest)
      | None => (acc, O, s)
      end
  | EmptyString => (acc, O, s)
  end.

Definition strtol (s : string) : Z * string * bool :=
  let '(neg, s') := take_sign (skip_spaces s) in
  let '(v, n, rest) := take_digits s' 0 in
  match n with
  | O => (0, s, false)
  | S _ =>
      let sv := if neg then - v else v in
      if sv >? CInt.LONG_MAX then (CInt.LONG_MAX, rest, true)
      else if sv <? CInt.LONG_MIN then (CInt.LONG_MIN, rest, true)
      else (sv, rest, false)
  end.

(** [strtoul] negates a value with a minus sign in [unsigned long]; only a
    magnitude above [ULONG_MAX] is a range error. *)
Definition strtoul (s : string) : Z * string * bool :=
  let '(neg, s') := take_sign (skip_spaces s) in
  let '(v, n, rest) := take_digits s' 0 in
  match n with
  | O => (0, s, false)
  | S _ =>
      if v >? CInt.ULONG_MAX then (CInt.ULONG_MAX, rest, true)
      else (if neg then CInt.to_ulong (- v) else v, rest, false)
  end.

Definition at_nul (s : string) : bool :=
  match s with EmptyString => true | String _ _ => false end.

(** [parse_long]: [Some l] where the source stores [l] and returns [false],
    [None] where it returns [true]. *)
Definition parse_long (s : string) : option Z :=
  let '(parsed, end_, erange) := strtol s in
  if erange && ((parsed =? CInt.LONG_MAX) || (parsed =? CInt.LONG_MIN))
  then None
  else if negb (at_nul end_) then None
  else Some parsed.

(** [parse_ulong]: the result of [strtoul] is kept in a [long] ([parsed]),
    tested there, and stored into the [unsigned long] [*l]. *)
Definition parse_ulong (s : string) : option Z :=
  let '(r, end_, erange) := strtoul s in
  let parsed := CInt.to_long r in
  if erange && ((parsed =? CInt.LONG_MAX) || (parsed <? 0))
  then None
  else if negb (at_nul end_) then None
  else Some (CInt.to_ulong parsed).

(** *** The configuration *)

Module Bell.

(** The global [bell]: position, dimensions ([-1]: the size of the
    display), duration in milliseconds, colour name ([NULL] is [None]). *)
Record t : Type := mk {
  x : Z; y : Z;
  w : Z; h : Z;
  duration : Z;
  color : option string
}.

End Bell.

(** The globals [bell] and [flash_once]. *)
Record config : Type := mk_config { bell : Bell.t; flash_once : bool }.

Definition default_config : config :=
  mk_config (Bell.mk 0 0 (-1) (-1) 100 None) false.

(** One result of [getopt_long]: the returned character and [optarg].  The
    characters are [w h x y c d f], the zero character for [--help], and
    anything else (['?'] included) for what [getopt_long] did not recognise. *)
Record getopt_item : Type := mk_opt { opt : ascii; optarg : string }.

(** What [strdup] answers: the copy, or [NULL] with an [errno]. *)
Inductive strdup_result : Type :=
| Dup (copy : string)
| DupFailed (errno : Z).

Definition usage_fmt : string :=
  "Usage: %s [-h <height>] [-w <width] [-x <x position>] [-y <y position>] [-c <colour name>]\n".

Definition print_usage (argv0 : string) : list action :=
  [Printf usage_fmt [PStr argv0]].

Inductive parse_result : Type :=
| Parsed (c : config)
| ParseExit (status : Z).

Section ParseArgs.

Variable argv0 : string.
Variable strdup : string -> strdup_result.

Definition with_bell (c : config) (b : Bell.t) : config :=
  mk_config b (flash_once c).

(** The body of the [switch] of [parse_args] for one option.  The messages
    about the maximum width and height pass the [unsigned] constant
    [UINT_MAX] to [%d], which reads it as an [int]. *)
Definition parse_option (c : config) (o : getopt_item)
  : list action * parse_result :=
  let b := bell c in
  let arg := optarg o in
  let opt_is (ch : ascii) := Ascii.eqb (opt o) ch in
  if opt_is zero then (print_usage argv0, ParseExit 0)
  else if opt_is "w"%char then
    match parse_long arg with
    | None => ([Printf "Invalid width %s\n" [PStr arg]], ParseExit 1)
    | Some tmp =>
        if tmp >? CInt.UINT_MAX
        then ([Printf "Invalid width. The maximum width is %d\n"
                 [PInt (CInt.to_int CInt.UINT_MAX)]], ParseExit 1)
        else
          let w := if tmp <? 0 then -1 else tmp in
          ([], Parsed (with_bell c
             (Bell.mk (Bell.x b) (Bell.y b) w (Bell.h b)
                      (Bell.duration b) (Bell.color b))))
    end
  else if opt_is "h"%char then
    match parse_long arg with
    | None => ([Printf "Invalid height %s\n" [PStr arg]], ParseExit 1)
    | Some tmp =>
        if tmp >? CInt.UINT_MAX
        then ([Printf "Invalid height. The maximum height is %d\n"
                 [PInt (CInt.to_int CInt.UINT_MAX)]], ParseExit 1)
        else
          let h := if tmp <? 0 then -1 else tmp in
          ([], Parsed (with_bell c
             (Bell.mk (Bell.x b) (Bell.y b) (Bell.w b) h
                      (Bell.duration b) (Bell.color b))))
    end
  else if opt_is "x"%char then
    match parse_long arg with
    | None => ([Printf "Invalid x position %s\n" [PStr arg]], ParseExit 1)
    | Some tmp =>
        if (tmp <? CInt.INT_MIN) || (tmp >? CInt.INT_MAX)
        then ([Printf "Invalid x. Must be an integer in the range (%d, %d)\n"
                 [PInt CInt.INT_MIN; PInt CInt.INT_MAX]], ParseExit 1)
        else
          ([], Parsed (with_bell c
             (Bell.mk (CInt.to_int tmp) (Bell.y b) (Bell.w b) (Bell.h b)
                      (Bell.duration b) (Bell.color b))))
    end
  else if opt_is "y"%char then
    match parse_long arg with
    | None => ([Printf "Invalid y position %s\n" [PStr arg]], ParseExit 1)
    | Some tmp =>
        if (tmp <? CInt.INT_MIN) || (tmp >? CInt.INT_MAX)
        then ([Printf "Invalid y. Must be an integer in the range (%d, %d)\n"
                 [PInt CInt.INT_MIN; PInt CInt.INT_MAX]], ParseExit 1)
        else
          ([], Parsed (with_bell c
             (Bell.mk (Bell.x b) (CInt.to_int tmp) (Bell.w b) (Bell.h b)
                      (Bell.duration b) (Bell.color b))))
    end
  else if opt_is "c"%char then
    match strdup arg with
    | DupFailed errno =>
        (Printf "Error setting color to %s" [PStr arg]
           :: (if errno =? 0 then [Printf "\n" []]
               else [Printf " (%d). Make sure you are using a valid X11 color name\n"
                       [PInt errno]]),
         ParseExit 1)
    | Dup copy =>
        ([], Parsed (with_bell c
           (Bell.mk (Bell.x b) (Bell.y b) (Bell.w b) (Bell.h b)
                    (Bell.duration b) (Some copy))))
    end
  else if opt_is "d"%char then
    match parse_ulong arg with
    | None =>
        ([Printf "Invalid duration %s. Should be a non-negative number of milliseconds.\n"
            [PStr arg]], ParseExit 1)
    | Some d =>
        ([], Parsed (with_bell c
           (Bell.mk (Bell.x b) (Bell.y b) (Bell.w b) (Bell.h b)
                    d (Bell.color b))))
    end
  else if opt_is "f"%char then ([], Parsed (mk_config b true))
  else
    ((if opt_is "?"%char then [] else [Printf "Invalid option %c\n" [PChar (opt o)]])
       ++ print_usage argv0,
     ParseExit 1).

(** [parse_args] over the options [getopt_long] returns until it returns
    [-1], starting from the globals' values [c]. *)
Fixpoint parse_args (c : config) (opts : list getopt_item)
  : list action * parse_result :=
  match opts with
  | [] => ([], Parsed c)
  | o :: rest =>
      match parse_option c o with
      | (tr, ParseExit status) => (tr, ParseExit status)
      | (tr, Parsed c1) =>
          let (tr', r) := parse_args c1 rest in (tr ++ tr', r)
      end
  end.

End ParseArgs.

(** ** [main] *)

(** [strncmp] of the C library: the sign and size of the first difference
    within the first [n] characters, the end of a string counting as the
    character 0. *)
Fixpoint strncmp (s1 s2 : string) (n : nat) {struct n} : Z :=
  match n with
  | O => 0
  | S n' =>
      match s1, s2 with
      | EmptyString, EmptyString => 0
      | EmptyString, String c2 _ => - Z.of_N (N_of_ascii c2)
      | String c1 _, EmptyString => Z.of_N (N_of_ascii c1)
      | String c1 r1, String c2 r2 =>
          if Ascii.eqb c1 c2 then strncmp r1 r2 n'
          else Z.of_N (N_of_ascii c1) - Z.of_N (N_of_ascii c2)
      end
  end.

(** What the X server and Xlib answer during set-up. *)
Record xserver : Type := mk_xserver {
  display_opens : bool;
  xkb_library_ok : bool;
  xkb_extension_ok : bool;
  WhitePixel : Z;
  (** The colour table: the pixel [XAllocNamedColor] returns as [nearest]
      for a name, or [None] where it fails. *)
  color_table : string -> option Z;
  DisplayWidth : Z;
  DisplayHeight : Z
}.

(** What the environment contributes after set-up: the uninitialised value
    of [end_time], the clock readings of one-shot mode (the first one, then
    one for each turn of its loop), and the iterations of the event loop. *)
Record run_input : Type := mk_run {
  garbage : timespec;
  flash_start : timespec;
  flash_clock : list timespec;
  iterations : list iteration
}.

(** "Set background colour" of [main]: the calls made and
    [attrs.background_pixel], or [None] where [main] exits with status 1. *)
Definition background_pixel (X : xserver) (color : option string)
  : list action * option Z :=
  match color with
  | None => ([], Some (WhitePixel X))
  | Some name =>
      if strncmp name "white" 5 =? 0 then ([], Some (WhitePixel X))
      else
        match color_table X name with
        | None =>
            ([XAllocNamedColor name;
              Printf "Colour %s isn't supported\n" [PStr name]], None)
        | Some pixel => ([XAllocNamedColor name], Some pixel)
        end
  end.

(** "Window shape" of [main]: [int width = bell.w < 0 ?
    DisplayWidth(display, screen) : bell.w;], the value of the [int]. *)
Definition window_extent (requested display : Z) : Z :=
  CInt.to_int (if requested <? 0 then display else requested).

(** The call [XCreateWindow(display, root, bell.x, bell.y, width, height,
    ...)]; its width and height parameters are [unsigned int]. *)
Definition create_window (X : xserver) (b : Bell.t) (pixel : Z) : action :=
  XCreateWindow (Bell.x b) (Bell.y b)
    (CInt.to_uint (window_extent (Bell.w b) (DisplayWidth X)))
    (CInt.to_uint (window_extent (Bell.h b) (DisplayHeight X)))
    pixel.

Definition xkb_setup : list action :=
  [XkbSelectEvents; XkbSetAutoResetControls; XkbChangeEnabledControls].

(** What [main] does once the window exists: one flash, or the event loop. *)
Definition run_phase (c : config) (run : run_input) : list action * outcome :=
  let duration := duration_of_ms (Bell.duration (bell c)) in
  if flash_once c
  then flash_once_and_exit duration (flash_start run) (flash_clock run)
  else
    let '(tr, _, o) :=
      main_loop duration (initial_state (garbage run)) (iterations run)
    in (tr, o).

(** [main] once [parse_args] has returned with the globals [c]. *)
Definition main_configured (c : config) (X : xserver) (run : run_input)
  : list action * outcome :=
  if negb (display_opens X)
  then ([XOpenDisplay; Printf "Error opening display\n" []], Exited 1)
  else if negb (xkb_library_ok X)
  then ([XOpenDisplay; Printf "X server doesn't support Xkb extension\n" []],
        Exited 1)
  else if negb (xkb_extension_ok X)
  then ([XOpenDisplay;
         Printf "X server has wrong version of Xkb extension (try rebuilding xvisbell)\n" []],
        Exited 1)
  else
    match background_pixel X (Bell.color (bell c)) with
    | (trc, None) => (XOpenDisplay :: xkb_setup ++ trc, Exited 1)
    | (trc, Some pixel) =>
        let (trr, o) := run_phase c run in
        (XOpenDisplay :: xkb_setup ++ trc ++ create_window X (bell c) pixel :: trr,
         o)
    end.

Definition main (argv0 : string) (strdup : string -> strdup_result)
  (opts : list getopt_item) (X : xserver) (run : run_input)
  : list action * outcome :=
  match parse_args argv0 strdup default_config opts with
  | (tr, ParseExit status) => (tr, Exited status)
  | (tr, Parsed c) =>
      let (tr', o) := main_configured c X run in (tr ++ tr', o)
  end.

(** ** Sample inputs *)

Module Sample.

Definition strdup (s : string) : strdup_result := Dup s.

(** A server whose table knows [red] and [whitesmoke]. *)
Definition colors (name : string) : option Z :=
  if String.eqb name "red" then Some 16711680
  else if String.eqb name "whitesmoke" then Some 16119285
  else None.

Definition server : xserver :=
  mk_xserver true true true 16777215 colors 1920 1080.

Definition ts (s ns : Z) : timespec := mk_timespec s ns.

Definition idle : run_input := mk_run (ts 0 0) (ts 0 0) [] [].

(** An iteration in which the wait returns with nothing to read. *)
Definition quiet : iteration := mk_iteration (ts 0 0) [SelReady 0] (ts 0 0) [].

(** Two bells 10 ms apart, handled in one drain shortly before a full
    second; then an event of another kind wakes the loop at 11.05 s. *)
Definition two_bells : list iteration :=
  [mk_iteration (ts 0 0) [SelReady 1] (ts 0 0)
     [mk_event XkbBellNotify (ts 10 950000000);
      mk_event XkbBellNotify (ts 10 960000000)];
   mk_iteration (ts 10 960050000) [SelReady 1] (ts 11 50000000)
     [mk_event 0 (ts 11 50001000)]].

(** A bell handled one microsecond before a full second; the next
    iteration starts 3 microseconds later. *)
Definition bell_before_the_second : list iteration :=
  [mk_iteration (ts 0 0) [SelReady 1] (ts 0 0)
     [mk_event XkbBellNotify (ts 10 999999000)];
   mk_iteration (ts 11 2000) [SelReady 0] (ts 12 500000000) []].

End Sample.

(** ** Vocabulary of the properties *)

(** A time stamp as [clock_gettime] returns it: the nanoseconds are below one
    second. *)
Definition normalized (t : timespec) : Prop :=
  0 <= tv_nsec t < NSEC_PER_SEC.


(** Whether, at the end of the history [h] of calls and assignments, a
    deadline has been set since the last hide: the latest of the
    assignments to [end_time] and the calls of [XUnmapWindow] in [h] is an
    assignment.  [since acc] is the same on top of an earlier answer. *)
Definition since (acc : bool) (h : list action) : bool :=
  fold_left
    (fun acc a =>
       match a with
       | Set_end_time _ => true
       | XUnmapWindow => false
       | _ => acc
       end) h acc.

Definition deadline_pending (h : list action) : bool := since false h.

(** The invariant of the event loop, for a state [st] reached with history
    [h]. *)
Definition flag_tracks_deadline (h : list action) (st : loop_state) : Prop :=
  visible st = deadline_pending h.

(** What one-shot mode does for the readings [early] at which it goes back
    to sleep: the reading, then [nanosleep] for what is left. *)
Definition sleeps (end_time : timespec) (early : list timespec)
  : list action :=
  flat_map
    (fun t => [ClockGettime t; Nanosleep (timespec_diff t end_time)]) early.

(** The server [X] with another colour table. *)
Definition with_color_table (X : xserver) (table : string -> option Z)
  : xserver :=
  mk_xserver (display_opens X) (xkb_library_ok X) (xkb_extension_ok X)
    (WhitePixel X) table (DisplayWidth X) (DisplayHeight X).

(** The argument of the last option [ch] on the command line, if any. *)
Fixpoint last_arg (ch : ascii) (opts : list getopt_item) : option string :=
  match opts with
  | [] => None
  | o :: rest =>
      match last_arg ch rest with
      | Some s => Some s
      | None => if Ascii.eqb (opt o) ch then Some (optarg o) else None
      end
  end.


(** A text with a character that is no digit, sign or white space. *)
Definition numeric_char (c : ascii) : bool :=
  match digit_of c with
  | Some _ => true
  | None => isspace c || Ascii.eqb c "-" || Ascii.eqb c "+"
  end.

Fixpoint non_numeric (s : string) : bool :=
  match s with
  | EmptyString => false
  | String c r => negb (numeric_char c) || non_numeric r
  end.

Definition reads_long (ch : ascii) : Prop :=
  ch = "w"%char \/ ch = "h"%char \/ ch = "x"%char \/ ch = "y"%char.

(** A call that, if it is a [pselect], is one with the given timeout. *)
Definition pselect_with (timeout : timespec) (a : action) : Prop :=
  forall t : option timespec, a = Pselect t -> t = Some timeout.

(** Why [parse_args] turns down the argument of a numeric option: its text
    is not accepted, the width or height read is above [UINT_MAX], or the
    position read is outside the range of [int]. *)
Inductive rejection : Type :=
| Bad_text
| Bad_extent
| Bad_position.

(** The ways [parse_args] turns down the argument of a numeric option: the
    text is not accepted by [parse_long] or [parse_ulong] (as is any text
    with a character that is no digit, sign or white space), or the value
    read is outside the range of the option. *)
Inductive turned_down : getopt_item -> rejection -> Prop :=
| Td_non_numeric (o : getopt_item) :
    reads_long (opt o) \/ opt o = "d"%char ->
    non_numeric (optarg o) = true ->
    turned_down o Bad_text
| Td_long (o : getopt_item) :
    reads_long (opt o) ->
    parse_long (optarg o) = None ->
    turned_down o Bad_text
| Td_ulong (o : getopt_item) :
    opt o = "d"%char ->
    parse_ulong (optarg o) = None ->
    turned_down o Bad_text
| Td_extent (o : getopt_item) (v : Z) :
    opt o = "w"%char \/ opt o = "h"%char ->
    parse_long (optarg o) = Some v ->
    v > CInt.UINT_MAX ->
    turned_down o Bad_extent
| Td_position (o : getopt_item) (v : Z) :
    opt o = "x"%char \/ opt o = "y"%char ->
    parse_long (optarg o) = Some v ->
    v < CInt.INT_MIN \/ v > CInt.INT_MAX ->
    turned_down o Bad_position.

(** The error messages for the argument of a numeric option, by option
    character: for a text that is not accepted, for a width or height that
    is too large, for a position out of range. *)
Definition text_error (ch : ascii) : string :=
  if Ascii.eqb ch "w" then "Invalid width %s\n"
  else if Ascii.eqb ch "h" then "Invalid height %s\n"
  else if Ascii.eqb ch "x" then "Invalid x position %s\n"
  else if Ascii.eqb ch "y" then "Invalid y position %s\n"
  else "Invalid duration %s. Should be a non-negative number of milliseconds.\n".

Definition extent_error (ch : ascii) : string :=
  if Ascii.eqb ch "w" then "Invalid width. The maximum width is %d\n"
  else "Invalid height. The maximum height is %d\n".

Definition position_error (ch : ascii) : string :=
  if Ascii.eqb ch "x"
  then "Invalid x. Must be an integer in the range (%d, %d)\n"
  else "Invalid y. Must be an integer in the range (%d, %d)\n".

(** What the one message says, by the reason of the rejection: it names
    the text that was not accepted; it names the bounds of a position; for
    a width or height it is the message about the maximum, whatever number
    is printed in it. *)
Definition announces (o : getopt_item) (r : rejection) (message : action)
  : Prop :=
  match r with
  | Bad_text => message = Printf (text_error (opt o)) [PStr (optarg o)]
  | Bad_position =>
      message
      = Printf (position_error (opt o)) [PInt CInt.INT_MIN; PInt CInt.INT_MAX]
  | Bad_extent =>
      exists n : Z, message = Printf (extent_error (opt o)) [PInt n]
  end.


(** ** Vocabulary of the further properties *)

(** Whether the loop takes an event for a bell. *)
Definition is_bell (ev : pending_event) : bool :=
  xkb_type ev =? XkbBellNotify.

(** The clock reading at which the last bell of a batch is handled. *)
Fixpoint last_bell (evs : list pending_event) : option timespec :=
  match evs with
  | [] => None
  | ev :: rest =>
      match last_bell rest with
      | Some t => Some t
      | None => if is_bell ev then Some (handled_at ev) else None
      end
  end.

(** How often a kind of call occurs in a trace. *)
Definition count (kind : action -> bool) (tr : list action) : nat :=
  List.length (filter kind tr).

Definition is_map (a : action) : bool :=
  match a with XMapRaised => true | _ => false end.

Definition is_create (a : action) : bool :=
  match a with XCreateWindow _ _ _ _ _ => true | _ => false end.

(** The calls that concern the window: its creation, mapping, unmapping. *)
Definition touches_window (a : action) : bool :=
  match a with
  | XCreateWindow _ _ _ _ _ | XMapRaised | XUnmapWindow => true
  | _ => false
  end.

(** The message [main] prints when [pselect] fails. *)
Definition select_error (errno : Z) : action :=
  Printf "Error in select() (errno %d)\n" [PInt errno].

(** An iteration whose wait is interrupted [n] times by a signal before
    the answers of [it] arrive. *)
Definition interrupted (n : nat) (it : iteration) : iteration :=
  mk_iteration (clock_before it)
    (repeat (SelError EINTR) n ++ select_answers it)
    (clock_after it) (pending it).

(** A script in which no bell rings. *)
Definition silent (script : list iteration) : Prop :=
  Forall (fun it => last_bell (pending it) = None) script.

(** The options that make [main] end with status 0: [--help] and [-f]. *)
Definition ends_with_success (o : getopt_item) : bool :=
  Ascii.eqb (opt o) zero || Ascii.eqb (opt o) "f".

(** The calls the program makes once the window exists. *)
Definition run_action (a : action) : bool :=
  match a with
  | XMapRaised | XUnmapWindow | XFlush | ClockGettime _ | Set_end_time _
  | Pselect _ | Nanosleep _ | Printf _ _ => true
  | _ => false
  end.

Definition is_printf (a : action) : bool :=
  match a with Printf _ _ => true | _ => false end.

(** What [parse_args] leaves in a field that one option sets, given the
    value it started with and the last argument supplied for that option:
    [reads] is how the option reads its argument. *)
Definition stored_field {A : Type} (reads : string -> A -> Prop)
  (initial final : A) (supplied : option string) : Prop :=
  match supplied with
  | None => final = initial
  | Some s => reads s final
  end.

(** [-x] and [-y] read an integer in the range of [int]. *)
Definition reads_position (s : string) (v : Z) : Prop :=
  parse_long s = Some v /\ CInt.INT_MIN <= v <= CInt.INT_MAX.

(** [-d] reads what [parse_ulong] makes of its argument. *)
Definition reads_duration (s : string) (v : Z) : Prop :=
  parse_ulong s = Some v.

(** [-c] keeps the copy [strdup] makes of its argument. *)
Definition reads_color (strdup : string -> strdup_result) (s : string)
  (v : option string) : Prop :=
  exists copy, strdup s = Dup copy /\ v = Some copy.

(** The option characters the [switch] of [parse_args] has a case for. *)
Definition recognised (ch : ascii) : bool :=
  Ascii.eqb ch zero || Ascii.eqb ch "w" || Ascii.eqb ch "h"
  || Ascii.eqb ch "x" || Ascii.eqb ch "y" || Ascii.eqb ch "c"
  || Ascii.eqb ch "d" || Ascii.eqb ch "f".

Definition is_flash_option (o : getopt_item) : bool := Ascii.eqb (opt o) "f".

Definition is_sleep (a : action) : bool :=
  match a with Nanosleep _ => true | _ => false end.

(** *** Decimal numerals *)

Fixpoint string_forall (f : ascii -> bool) (s : string) : bool :=
  match s with
  | EmptyString => true
  | String c r => f c && string_forall f r
  end.

Definition is_digit (c : ascii) : bool :=
  match digit_of c with Some _ => true | None => false end.

(** The value of a run of decimal digits read on top of [acc]. *)
Fixpoint horner (acc : Z) (s : string) : Z :=
  match s with
  | EmptyString => acc
  | String c r =>
      horner (acc * 10 + match digit_of c with Some d => d | None => 0 end) r
  end.

Definition decimal (s : string) : Z := horner 0 s.

(** The three ways to write the sign, and whether it is a minus. *)
Inductive sign_text : string -> bool -> Prop :=
| sign_none : sign_text "" false
| sign_plus : sign_text "+" false
| sign_minus : sign_text "-" true.

(** A numeral: white space, an optional sign, at least one digit, and
    nothing after.  [numeral s neg m] gives its sign and magnitude. *)
Inductive numeral : string -> bool -> Z -> Prop :=
| numeral_intro (sp sg ds : string) (neg : bool) :
    string_forall isspace sp = true ->
    sign_text sg neg ->
    string_forall is_digit ds = true ->
    ds <> "" ->
    numeral (String.append sp (String.append sg ds)) neg (decimal ds).

(** ** [struct timeval] *)

Module Timeval.

(** [struct timeval]: seconds and microseconds. *)
Record t : Type := mk { tv_sec : Z; tv_usec : Z }.

Definition USEC_PER_SEC : Z := 1000000.

(** The instant or length a [timeval] denotes, in microseconds. *)
Definition micros (a : t) : Z := tv_sec a * USEC_PER_SEC + tv_usec a.

(** A [timeval] as [gettimeofday] gives it. *)
Definition normalized (a : t) : Prop := 0 <= tv_usec a < USEC_PER_SEC.

(** A [timeval] [select] accepts as a timeout. *)
Definition valid (a : t) : bool :=
  (0 <=? tv_sec a) && (0 <=? tv_usec a) && (tv_usec a <? USEC_PER_SEC).

(** The macros [timercmp(a, b, <)], [timeradd] and [timersub] of
    [<sys/time.h>]. *)
Definition timercmp_lt (a b : t) : bool :=
  if tv_sec a =? tv_sec b then tv_usec a <? tv_usec b
  else tv_sec a <? tv_sec b.

Definition timeradd (a b : t) : t :=
  let sec := tv_sec a + tv_sec b in
  let usec := tv_usec a + tv_usec b in
  if usec >=? 1000000 then mk (sec + 1) (usec - 1000000) else mk sec usec.

Definition timersub (a b : t) : t :=
  let sec := tv_sec a - tv_sec b in
  let usec := tv_usec a - tv_usec b in
  if usec <? 0 then mk (sec - 1) (usec + 1000000) else mk sec usec.

End Timeval.

(** ** The replacement of [clock_gettime] for older macOS *)

(** [clock_gettime] as [xvisbell.c] defines it where the system has none:
    [gettimeofday] answers [rv] and, when [rv] is 0, the time [now]; the
    function returns [rv] and the contents of [*t] afterwards. *)
Definition clock_gettime (rv : Z) (now : Timeval.t) (t : timespec)
  : Z * timespec :=
  if negb (rv =? 0) then (rv, t)
  else (0, mk_timespec (Timeval.tv_sec now) (Timeval.tv_usec now * 1000)).

(** ** [xvisbell.cpp], the program [xvisbell.c] was derived from *)

Module Cpp.

(** [const struct timeval window_timeout = {0, 100000}]. *)
Definition window_timeout : Timeval.t := Timeval.mk 0 100000.

(** [operator<], [operator+=] and [operator-] on [struct timeval]. *)
Definition lt (a b : Timeval.t) : bool := Timeval.timercmp_lt a b.
Definition add_assign (a b : Timeval.t) : Timeval.t := Timeval.timeradd a b.
Definition sub (a b : Timeval.t) : Timeval.t := Timeval.timersub a b.

(** [long_str_to_int]: [Some i] where the source stores [i] and returns
    [false], [None] where it returns [true].  [round] is applied to a
    [long] within the range of [int], which a [double] holds exactly. *)
Definition long_str_to_int (s : string) : option Z :=
  let '(l, end_, erange) := strtol s in
  if erange && ((l =? CInt.LONG_MAX) || (l =? CInt.LONG_MIN)) then None
  else if (l >? CInt.INT_MAX) || (l <? CInt.INT_MIN) then None
  else if negb (at_nul end_) then None
  else Some (CInt.to_int l).

(** The calls of the event loop: [gettimeofday] with what it read ([None]
    where it failed), [select] with its timeout ([None] for a null
    pointer), and the two window calls. *)
Inductive action : Type :=
| Gettimeofday (reading : option Timeval.t)
| Select (timeout : option Timeval.t)
| XMapRaised
| XUnmapWindow.

(** The loop runs until an exception leaves [main]. *)
Inductive outcome : Type :=
| Running
| Thrown (what : string).

(** The variables [timeout_is_set] and [future_wakeup] of [main]. *)
Record state : Type :=
  mk_state { timeout_is_set : bool; future_wakeup : Timeval.t }.

(** What one call of [select] answers: the number of ready descriptors, or
    [-1] with an [errno] and the time the kernel left in the timeout. *)
Inductive select_answer : Type :=
| Ready (n : Z)
| Failed (errno : Z) (remaining : Timeval.t).

(** [select(2)]: a timeout that is no valid [timeval] fails at once with
    [EINVAL]; otherwise the call answers what the environment makes it
    answer ([None]: the call is still blocked). *)
Definition select (timeout : option Timeval.t)
  (answer : option select_answer) : option select_answer :=
  match timeout with
  | Some tv => if Timeval.valid tv then answer else Some (Failed EINVAL tv)
  | None => answer
  end.

Inductive wait_result : Type :=
| Woke
| SelectFailed
| Blocked.

(** The inner [while (true)] of [main]: [select] with [wait_tv], called
    again after [EINTR] with what the interrupted call left in [tv]. *)
Fixpoint select_loop (wait_tv : option Timeval.t)
  (answers : list select_answer) : list action * wait_result :=
  let call := Select wait_tv in
  match select wait_tv (hd_error answers) with
  | None => ([call], Blocked)
  | Some (Ready _) => ([call], Woke)
  | Some (Failed errno remaining) =>
      if errno =? EINTR
      then match answers with
           | [] => ([call], Blocked)
           | _ :: rest =>
               let (tr, r) :=
                 select_loop (option_map (fun _ => remaining) wait_tv) rest in
               (call :: tr, r)
           end
      else ([call], SelectFailed)
  end.

Inductive step : Type :=
| Continue (st : state)
| Stop (st : state) (o : outcome).

(** A pending X event: its [xkb_type], and what [gettimeofday] reads when
    the loop handles it. *)
Record pending_event : Type :=
  mk_event { xkb_type : Z; handled_at : option Timeval.t }.

(** The body of [while (XPending(dpy))] for one event. *)
Definition handle_event (st : state) (ev : pending_event)
  : list action * step :=
  if negb (xkb_type ev =? XkbBellNotify) then ([], Continue st)
  else
    match handled_at ev with
    | None =>
        ([XMapRaised; Gettimeofday None],
         Stop (mk_state true (future_wakeup st))
           (Thrown "getttimeofday() error!"))
    | Some now =>
        ([XMapRaised; Gettimeofday (Some now)],
         Continue (mk_state true (add_assign now window_timeout)))
    end.

Fixpoint drain_events (st : state) (evs : list pending_event)
  : list action * step :=
  match evs with
  | [] => ([], Continue st)
  | ev :: rest =>
      match handle_event st ev with
      | (tr, Stop st1 o) => (tr, Stop st1 o)
      | (tr, Continue st1) =>
          let (tr', r) := drain_events st1 rest in (tr ++ tr', r)
      end
  end.

(** What the environment contributes to one turn of the outer
    [while (true)]. *)
Record iteration : Type := mk_iteration {
  clock_before : option Timeval.t;
  select_answers : list select_answer;
  clock_after : option Timeval.t;
  pending : list pending_event
}.

(** The first block of the loop: [wait_tv], null unless a timeout is set. *)
Definition wait_tv (st : state) (reading : option Timeval.t)
  : list action * option (option Timeval.t) :=
  if timeout_is_set st
  then match reading with
       | None => ([Gettimeofday None], None)
       | Some cur_time =>
           ([Gettimeofday (Some cur_time)],
            Some (Some (if lt (future_wakeup st) cur_time
                        then Timeval.mk 0 0
                        else sub (future_wakeup st) cur_time)))
       end
  else ([], Some None).

(** The block after the wait: "timeout fired". *)
Definition check_fired (st : state) (reading : option Timeval.t)
  : list action * step :=
  if timeout_is_set st
  then match reading with
       | None =>
           ([Gettimeofday None], Stop st (Thrown "getttimeofday() error!"))
       | Some cur_time =>
           if lt (future_wakeup st) cur_time
           then ([Gettimeofday (Some cur_time); XUnmapWindow],
                 Continue (mk_state false (future_wakeup st)))
           else ([Gettimeofday (Some cur_time)], Continue st)
       end
  else ([], Continue st).

Definition loop_iteration (st : state) (it : iteration)
  : list action * step :=
  match wait_tv st (clock_before it) with
  | (tr1, None) => (tr1, Stop st (Thrown "getttimeofday() error!"))
  | (tr1, Some tv) =>
      let (tr2, w) := select_loop tv (select_answers it) in
      match w with
      | SelectFailed => (tr1 ++ tr2, Stop st (Thrown "select() error!"))
      | Blocked => (tr1 ++ tr2, Stop st Running)
      | Woke =>
          match check_fired st (clock_after it) with
          | (tr3, Stop st1 o) => (tr1 ++ tr2 ++ tr3, Stop st1 o)
          | (tr3, Continue st1) =>
              let (tr4, r) := drain_events st1 (pending it) in
              (tr1 ++ tr2 ++ tr3 ++ tr4, r)
          end
      end
  end.

(** The outer [while (true)] of [main] over a script of iterations. *)
Fixpoint main_loop (st : state) (script : list iteration)
  : list action * state * outcome :=
  match script with
  | [] => ([], st, Running)
  | it :: rest =>
      match loop_iteration st it with
      | (tr, Stop st1 o) => (tr, st1, o)
      | (tr, Continue st1) =>
          let '(tr', st2, o) := main_loop st1 rest in (tr ++ tr', st2, o)
      end
  end.

(** The state the loop may be in: a deadline that is set is in normal
    form. *)
Definition deadline_normalized (st : state) : Prop :=
  timeout_is_set st = true -> Timeval.normalized (future_wakeup st).

Definition reading_ok (r : option Timeval.t) : Prop :=
  match r with Some t => Timeval.normalized t | None => True end.

Definition answer_ok (a : select_answer) : Prop :=
  match a with
  | Ready _ => True
  | Failed _ remaining => Timeval.valid remaining = true
  end.

(** A script in which the system behaves: [gettimeofday] reads normal
    forms, and an interrupted [select] leaves a valid timeout. *)
Definition system_ok (it : iteration) : Prop :=
  reading_ok (clock_before it)
  /\ Forall answer_ok (select_answers it)
  /\ reading_ok (clock_after it)
  /\ Forall (fun ev => reading_ok (handled_at ev)) (pending it).

(** A call of [select] whose timeout, if any, is valid. *)
Definition select_is_valid (a : action) : Prop :=
  match a with
  | Select (Some tv) => Timeval.valid tv = true
  | _ => True
  end.

End Cpp.

(** A script of [xvisbell.cpp] in which no bell rings. *)
Definition cpp_silent (script : list Cpp.iteration) : Prop :=
  Forall
    (fun it =>
       Forall (fun ev => (Cpp.xkb_type ev =? XkbBellNotify) = false)
         (Cpp.pending it))
    script.
(** * Properties *)

(** ** Integer conversions *)

Module CIntFacts.
Import CInt.


Lemma to_int_id (z : Z) : INT_MIN <= z <= INT_MAX -> to_int z = z.
Proof.
  unfold to_int, to_signed, to_unsigned, INT_MIN, INT_MAX. intros H.
  change (2 ^ (32 - 1)) with 2147483648. change (2 ^ 32) with 4294967296.
  destruct (Z_lt_le_dec z 0) as [Hneg | Hpos].
  - replace (z mod 4294967296) with (z + 4294967296).
    + destruct (Z.ltb_spec (z + 4294967296) 2147483648); lia.
    + apply Z.mod_unique with (q := -1); lia.
  - rewrite Z.mod_small by lia.
    destruct (Z.ltb_spec z 2147483648); lia.
Qed.


Lemma to_ulong_to_long (z : Z) : to_ulong (to_long z) = to_ulong z.
Proof.
  unfold to_ulong, to_long, to_signed, to_unsigned.
  change (2 ^ (64 - 1)) with 9223372036854775808.
  change (2 ^ 64) with 18446744073709551616.
  destruct (Z.ltb_spec (z mod 18446744073709551616) 9223372036854775808).
  - apply Z.mod_mod. lia.
  - replace (z mod 18446744073709551616 - 18446744073709551616)
      with (z mod 18446744073709551616 + (-1) * 18446744073709551616) by lia.
    rewrite Z.mod_add by lia. apply Z.mod_mod. lia.
Qed.

End CIntFacts.

(** ** The remaining wait *)

(** Turns the boolean comparisons of the goal and the context into
    (in)equalities. *)
Ltac zcompare :=
  repeat match goal with
  | |- context [?a >? ?b] => destruct (Z.gtb_spec a b)
  | |- context [?a <? ?b] => destruct (Z.ltb_spec a b)
  | |- context [?a <=? ?b] => destruct (Z.leb_spec a b)
  | |- context [?a =? ?b] => destruct (Z.eqb_spec a b)
  | H : context [?a >? ?b] |- _ => destruct (Z.gtb_spec a b)
  | H : context [?a <? ?b] |- _ => destruct (Z.ltb_spec a b)
  | H : context [?a <=? ?b] |- _ => destruct (Z.leb_spec a b)
  | H : context [?a =? ?b] |- _ => destruct (Z.eqb_spec a b)
  end.

Section RemainingWait.

Variables now deadline : timespec.
Hypothesis now_normalized : normalized now.
Hypothesis deadline_nsec_nonneg : 0 <= tv_nsec deadline.

Lemma timespec_diff_nonneg :
  0 <= tv_sec (timespec_diff now deadline)
  /\ 0 <= tv_nsec (timespec_diff now deadline).
Proof.
  unfold normalized, NSEC_PER_SEC in *.
  unfold timespec_diff. zcompare; cbn [tv_sec tv_nsec orb andb]; lia.
Qed.

Lemma timespec_diff_passed :
  nanos deadline <= nanos now ->
  timespec_diff now deadline = mk_timespec 0 0.
Proof.
  unfold normalized, nanos, NSEC_PER_SEC in *.
  unfold timespec_diff. intros Hle.
  zcompare; cbn [orb andb]; try reflexivity; f_equal; lia.
Qed.

Lemma timespec_diff_exact :
  tv_nsec deadline < NSEC_PER_SEC ->
  nanos now < nanos deadline ->
  nanos (timespec_diff now deadline) = nanos deadline - nanos now
  /\ normalized (timespec_diff now deadline)
  /\ is_zero (timespec_diff now deadline) = false.
Proof.
  unfold normalized, nanos, NSEC_PER_SEC, is_zero in *.
  unfold timespec_diff. intros Hns Hlt.
  zcompare; cbn [tv_sec tv_nsec orb andb] in *; zcompare;
    cbn [tv_sec tv_nsec orb andb] in *; repeat split; try lia; try reflexivity.
Qed.

End RemainingWait.

(** For every clock reading [now] (nanoseconds below one second) and every
    deadline whose nanoseconds are not negative, the remaining wait
    [timespec_diff now deadline] has no negative field, and when [now] is
    later than or equal to the deadline it is [{0, 0}] and
    [update_timeout_and_hide] unmaps the window and clears [visible] in the
    same call.  For a deadline in normal form (nanoseconds below one
    second) and a reading before it, the wait is exactly [deadline - now],
    itself in normal form, and the window stays as it is. *)
Theorem remaining_wait_in_normal_form (now : timespec) (st : loop_state) :
  normalized now ->
  0 <= tv_nsec (end_time st) ->
  (0 <= tv_sec (timespec_diff now (end_time st))
   /\ 0 <= tv_nsec (timespec_diff now (end_time st)))
  /\ (nanos (end_time st) <= nanos now ->
      update_timeout_and_hide now st
      = (mk_timespec 0 0, mk_state false (end_time st),
         [ClockGettime now; XUnmapWindow]))
  /\ (tv_nsec (end_time st) < NSEC_PER_SEC ->
      nanos now < nanos (end_time st) ->
      update_timeout_and_hide now st
      = (timespec_diff now (end_time st), st, [ClockGettime now])
      /\ nanos (timespec_diff now (end_time st))
         = nanos (end_time st) - nanos now
      /\ normalized (timespec_diff now (end_time st))).
Proof.
  intros Hnow Hnn.
  split; [ apply timespec_diff_nonneg; assumption | split ].
  - intros Hle. unfold update_timeout_and_hide.
    rewrite (timespec_diff_passed now (end_time st) Hnow Hnn Hle).
    reflexivity.
  - intros Hns Hlt.
    destruct (timespec_diff_exact now (end_time st) Hnow Hnn Hns Hlt)
      as (Hv & Hn & Hz).
    unfold update_timeout_and_hide. rewrite Hz. auto.
Qed.

Lemma remaining_wait_in_normal_form_witness :
  update_timeout_and_hide (mk_timespec 10 250000000)
    (mk_state true (mk_timespec 11 100000000))
  = (mk_timespec 0 850000000, mk_state true (mk_timespec 11 100000000),
     [ClockGettime (mk_timespec 10 250000000)]).
Proof.
  refine (proj1 (proj2 (proj2
    (remaining_wait_in_normal_form (mk_timespec 10 250000000)
       (mk_state true (mk_timespec 11 100000000)) _ _)) _ _));
    unfold normalized, nanos, NSEC_PER_SEC; cbn [tv_sec tv_nsec end_time]; lia.
Defined.

(** C5.  The deadline [main] stores for a bell or a flash that starts at
    10.999999 s with the default duration of 100 ms is [{10, 1099999000}].
    At the clock reading 11.000001 s that deadline is 99998000 ns away,
    yet [timespec_diff] finds [now.tv_sec > deadline.tv_sec] and returns
    [{0, 0}], and [update_timeout_and_hide] unmaps the window. *)
Theorem C5_zero_wait_before_stored_deadline :
  add_duration (mk_timespec 10 999999000) (duration_of_ms 100)
  = mk_timespec 10 1099999000
  /\ nanos (mk_timespec 10 1099999000) - nanos (mk_timespec 11 1000)
     = 99998000
  /\ timespec_diff (mk_timespec 11 1000) (mk_timespec 10 1099999000)
     = mk_timespec 0 0
  /\ update_timeout_and_hide (mk_timespec 11 1000)
       (mk_state true (mk_timespec 10 1099999000))
     = (mk_timespec 0 0, mk_state false (mk_timespec 10 1099999000),
        [ClockGettime (mk_timespec 11 1000); XUnmapWindow]).
Proof. repeat split. Qed.

(** ** The visibility flag and the deadline *)

Lemma since_app (acc : bool) (h tr : list action) :
  since acc (h ++ tr) = since (since acc h) tr.
Proof. unfold since. apply fold_left_app. Qed.

Lemma deadline_pending_app (h tr : list action) :
  deadline_pending (h ++ tr) = since (deadline_pending h) tr.
Proof. apply since_app. Qed.

(** The deadline check keeps the flag equal to "deadline pending". *)
Lemma check_tracks (now : timespec) (st : loop_state) (acc : bool) :
  visible st = acc ->
  visible (snd (fst (update_timeout_and_hide now st)))
  = since acc (snd (update_timeout_and_hide now st)).
Proof.
  intros <-. unfold update_timeout_and_hide.
  destruct (is_zero (timespec_diff now (end_time st))); reflexivity.
Qed.

(** So does the handling of one event. *)
Lemma handle_event_tracks (duration : timespec) (st : loop_state)
  (ev : pending_event) (acc : bool) :
  visible st = acc ->
  visible (fst (handle_event duration st ev))
  = since acc (snd (handle_event duration st ev)).
Proof.
  intros <-. unfold handle_event.
  destruct (negb (xkb_type ev =? XkbBellNotify)); reflexivity.
Qed.

Lemma drain_events_tracks (duration : timespec) (evs : list pending_event) :
  forall (st : loop_state) (acc : bool),
    visible st = acc ->
    visible (fst (drain_events duration st evs))
    = since acc (snd (drain_events duration st evs)).
Proof.
  induction evs as [| ev rest IH]; intros st acc Hst; cbn [drain_events].
  - exact Hst.
  - pose proof (handle_event_tracks duration st ev acc Hst) as Hev.
    destruct (handle_event duration st ev) as [st1 tr1]. cbn [fst snd] in Hev.
    specialize (IH st1 _ Hev).
    destruct (drain_events duration st1 rest) as [st2 tr2].
    cbn [fst snd] in *. rewrite since_app. exact IH.
Qed.

(** The wait neither sets a deadline nor hides the window. *)
Lemma x11select_since (timeout : timespec) (answers : list select_result)
  (acc : bool) :
  since acc (fst (x11select timeout answers)) = acc.
Proof.
  induction answers as [| a rest IH]; cbn [x11select hd_error pselect].
  - destruct (timespec_valid timeout); cbn [EINVAL Z.eqb EINTR]; reflexivity.
  - destruct (timespec_valid timeout); [ | reflexivity ].
    destruct a as [n | errno]; [ reflexivity | ].
    destruct (errno =? EINTR); [ | reflexivity ].
    destruct (x11select timeout rest) as [tr r]. cbn [fst] in *.
    exact IH.
Qed.

Lemma wait_timeout_tracks (st : loop_state) (now : timespec) (acc : bool) :
  visible st = acc ->
  visible (snd (fst (wait_timeout st now)))
  = since acc (snd (wait_timeout st now)).
Proof.
  intros Hst. unfold wait_timeout.
  destruct (visible st) eqn:Hv.
  - apply check_tracks. congruence.
  - cbn. congruence.
Qed.

Lemma loop_iteration_tracks (duration : timespec) (st : loop_state)
  (it : iteration) (acc : bool) :
  visible st = acc ->
  match loop_iteration duration st it with
  | (tr, Continue st') | (tr, Stop st' _) => visible st' = since acc tr
  end.
Proof.
  intros Hst. unfold loop_iteration.
  pose proof (wait_timeout_tracks st (clock_before it) acc Hst) as H1.
  destruct (wait_timeout st (clock_before it)) as [[timeout st1] tr1].
  cbn [fst snd] in H1.
  pose proof (x11select_since timeout (select_answers it) (since acc tr1)) as H2.
  destruct (x11select timeout (select_answers it)) as [tr2 w].
  cbn [fst] in H2.
  destruct w as [| errno |];
    [ | rewrite since_app, H2; exact H1 | rewrite since_app, H2; exact H1 ].
  assert (H3 : forall r : timespec * loop_state * list action,
             r = (if visible st1
                  then update_timeout_and_hide (clock_after it) st1
                  else (timeout, st1, [])) ->
             visible (snd (fst r)) = since (since acc tr1) (snd r)).
  { intros r ->. destruct (visible st1) eqn:Hv.
    - apply check_tracks. congruence.
    - cbn. congruence. }
  specialize (H3 _ eq_refl).
  destruct (if visible st1
            then update_timeout_and_hide (clock_after it) st1
            else (timeout, st1, [])) as [[t2 st2] tr3].
  cbn [fst snd] in H3.
  pose proof (drain_events_tracks duration (pending it) st2 _ H3) as H4.
  destruct (drain_events duration st2 (pending it)) as [st3 tr4].
  cbn [fst snd] in H4.
  rewrite !since_app, H2. exact H4.
Qed.

Lemma main_loop_tracks (duration : timespec) (script : list iteration) :
  forall (st : loop_state) (acc : bool),
    visible st = acc ->
    visible (snd (fst (main_loop duration st script)))
    = since acc (fst (fst (main_loop duration st script))).
Proof.
  induction script as [| it rest IH]; intros st acc Hst; cbn [main_loop].
  - exact Hst.
  - pose proof (loop_iteration_tracks duration st it acc Hst) as Hit.
    destruct (loop_iteration duration st it) as [tr [st1 | st1 o]].
    + specialize (IH st1 _ Hit).
      destruct (main_loop duration st1 rest) as [[tr' st2] o].
      cbn [fst snd] in *. rewrite since_app. exact IH.
    + exact Hit.
Qed.

(** C2.  In continuous mode the visibility flag is true exactly when a
    deadline has been set since the last hide.  It holds of every state the
    event loop reaches from the initial state, whatever the clock, the
    waits and the events do; and each operation of the loop (a deadline
    check, as made before and after the wait; the handling of a drained
    event; a whole iteration) carries it from the state and history it
    starts with to those it ends with. *)
Theorem C2_flag_tracks_deadline (duration : timespec) :
  (forall (garbage : timespec) (script : list iteration),
      flag_tracks_deadline
        (fst (fst (main_loop duration (initial_state garbage) script)))
        (snd (fst (main_loop duration (initial_state garbage) script))))
  /\ (forall (h : list action) (st : loop_state),
         flag_tracks_deadline h st ->
         (forall now : timespec,
             flag_tracks_deadline
               (h ++ snd (update_timeout_and_hide now st))
               (snd (fst (update_timeout_and_hide now st))))
         /\ (forall ev : pending_event,
                flag_tracks_deadline
                  (h ++ snd (handle_event duration st ev))
                  (fst (handle_event duration st ev)))
         /\ (forall it : iteration,
                match loop_iteration duration st it with
                | (tr, Continue st') | (tr, Stop st' _) =>
                    flag_tracks_deadline (h ++ tr) st'
                end)).
Proof.
  unfold flag_tracks_deadline. split.
  - intros garbage script.
    apply (main_loop_tracks duration script (initial_state garbage) false).
    reflexivity.
  - intros h st Hst. repeat split.
    + intros now. rewrite deadline_pending_app. apply check_tracks, Hst.
    + intros ev. rewrite deadline_pending_app. apply handle_event_tracks, Hst.
    + intros it.
      pose proof (loop_iteration_tracks duration st it _ Hst) as Hit.
      destruct (loop_iteration duration st it) as [tr [st' | st' o]];
        rewrite deadline_pending_app; exact Hit.
Qed.

Lemma C2_flag_tracks_deadline_witness :
  flag_tracks_deadline
    ([XMapRaised; ClockGettime (mk_timespec 10 0);
      Set_end_time (mk_timespec 10 100000000)]
       ++ snd (update_timeout_and_hide (mk_timespec 10 100000000)
                 (mk_state true (mk_timespec 10 100000000))))
    (snd (fst (update_timeout_and_hide (mk_timespec 10 100000000)
                 (mk_state true (mk_timespec 10 100000000))))).
Proof.
  apply (proj2 (C2_flag_tracks_deadline (mk_timespec 0 100000000))
           [XMapRaised; ClockGettime (mk_timespec 10 0);
            Set_end_time (mk_timespec 10 100000000)]
           (mk_state true (mk_timespec 10 100000000))).
  reflexivity.
Defined.

(** ** The wait while hidden *)

(** C1.  While the window is hidden, the timeout [main] hands to [pselect]
    is a pointer to [{0, 0}], never a null pointer: for every hidden state
    and every iteration, the first call of the iteration is [pselect] with
    the zero timeout, which asks for an immediate return.  Three iterations
    without any event are three such calls. *)
Theorem C1_hidden_wait_is_zero_timeout :
  forall (duration deadline now : timespec) (it : iteration),
    wait_timeout (mk_state false deadline) now
    = (mk_timespec 0 0, mk_state false deadline, [])
    /\ (exists (tr : list action) (r : step_result),
           loop_iteration duration (mk_state false deadline) it
           = (Pselect (Some (mk_timespec 0 0)) :: tr, r))
    /\ main_loop duration (initial_state deadline)
         [Sample.quiet; Sample.quiet; Sample.quiet]
       = ([Pselect (Some (mk_timespec 0 0));
           Pselect (Some (mk_timespec 0 0));
           Pselect (Some (mk_timespec 0 0))],
          mk_state false deadline, Running).
Proof.
  intros duration deadline now it. split; [ reflexivity | split ].
  - unfold loop_iteration, wait_timeout. cbn [visible].
    destruct (select_answers it) as [| a rest];
      cbn [x11select hd_error pselect timespec_valid tv_sec tv_nsec
           Z.leb Z.ltb Z.compare NSEC_PER_SEC andb].
    + eexists _, _. reflexivity.
    + destruct a as [n | errno].
      * cbn [app visible].
        destruct (drain_events duration (mk_state false deadline) (pending it)).
        eexists _, _. reflexivity.
      * destruct (errno =? EINTR).
        -- destruct (x11select (mk_timespec 0 0) rest) as [tr w].
           destruct w; cbn [app visible];
             try destruct (drain_events duration (mk_state false deadline)
                             (pending it));
             eexists _, _; reflexivity.
        -- eexists _, _. reflexivity.
  - reflexivity.
Qed.

(** ** A deadline whose nanoseconds pass one second *)

(** C3.  Duration 100 ms.  A bell is handled at 10.95 s (deadline 11.05 s)
    and a second one at 10.96 s, while the window is visible; the second
    one leaves the window visible and overwrites the deadline, which is
    stored as [{10, 1060000000}].  When another event wakes the loop at
    11.05 s, the instant of the original deadline and 10 ms before the new
    one, the check after the wait finds [now.tv_sec > end_time.tv_sec] and
    unmaps the window. *)
Theorem C3_second_bell_hidden_at_first_deadline :
  handle_event (duration_of_ms 100)
    (mk_state true (mk_timespec 10 1050000000))
    (mk_event XkbBellNotify (mk_timespec 10 960000000))
  = (mk_state true (mk_timespec 10 1060000000),
     [XMapRaised; ClockGettime (mk_timespec 10 960000000);
      Set_end_time (mk_timespec 10 1060000000)])
  /\ nanos (mk_timespec 11 50000000) < nanos (mk_timespec 10 1060000000)
  /\ main_loop (duration_of_ms 100) (initial_state (mk_timespec 0 0))
       Sample.two_bells
     = ([Pselect (Some (mk_timespec 0 0));
         XMapRaised; ClockGettime (mk_timespec 10 950000000);
         Set_end_time (mk_timespec 10 1050000000);
         XMapRaised; ClockGettime (mk_timespec 10 960000000);
         Set_end_time (mk_timespec 10 1060000000);
         ClockGettime (mk_timespec 10 960050000);
         Pselect (Some (mk_timespec 0 99950000));
         ClockGettime (mk_timespec 11 50000000);
         XUnmapWindow],
        mk_state false (mk_timespec 10 1060000000), Running).
Proof. repeat split. Qed.

(** C4.  Duration 1500 ms ([-d 1500]).  A bell is handled at 10.999999 s;
    the deadline is stored as [{11, 1499999000}].  The next iteration reads
    the clock at 11.000002 s and hands [pselect] the timeout
    [{0, 1499997000}], which is no valid [timespec]: [pselect] fails with
    [EINVAL], [main] prints the error and returns 1. *)
Theorem C4_loop_ends_on_invalid_timeout :
  main "xvisbell" Sample.strdup [mk_opt "d" "1500"] Sample.server
    (mk_run (mk_timespec 0 0) (mk_timespec 0 0) []
       Sample.bell_before_the_second)
  = ([XOpenDisplay; XkbSelectEvents; XkbSetAutoResetControls;
      XkbChangeEnabledControls; XCreateWindow 0 0 1920 1080 16777215;
      Pselect (Some (mk_timespec 0 0));
      XMapRaised; ClockGettime (mk_timespec 10 999999000);
      Set_end_time (mk_timespec 11 1499999000);
      ClockGettime (mk_timespec 11 2000);
      Pselect (Some (mk_timespec 0 1499997000));
      Printf "Error in select() (errno %d)\n" [PInt EINVAL]],
     Exited 1).
Proof. reflexivity. Qed.

(** C6.  One-shot mode ([-f]) with the default duration of 100 ms.  The
    first clock reading is 10.999999000 s, so the deadline is stored as
    [{10, 1099999000}]; the loop reads 11.000001000 s, finds
    [now.tv_sec > end_time.tv_sec], unmaps the window and exits with
    status 0 without having slept: 2000 ns after the first reading. *)
Theorem C6_one_shot_unmapped_early :
  main "xvisbell" Sample.strdup [mk_opt "f" ""] Sample.server
    (mk_run (mk_timespec 0 0) (mk_timespec 10 999999000)
       [mk_timespec 11 1000] [])
  = ([XOpenDisplay; XkbSelectEvents; XkbSetAutoResetControls;
      XkbChangeEnabledControls; XCreateWindow 0 0 1920 1080 16777215;
      ClockGettime (mk_timespec 10 999999000);
      Set_end_time (mk_timespec 10 1099999000);
      XMapRaised; XFlush;
      ClockGettime (mk_timespec 11 1000); XUnmapWindow],
     Exited 0)
  /\ nanos (mk_timespec 11 1000) - nanos (mk_timespec 10 999999000) = 2000
  /\ nanos (duration_of_ms 100) = 100000000.
Proof. repeat split. Qed.

(** ** The colour *)

(** C9.  [-c whitesmoke] on a server whose table gives [whitesmoke] the
    pixel [16119285] and whose white pixel is [16777215]: the table is not
    consulted, the window is created with the white pixel.  [-c whiteXYZ],
    a name the table does not have: no error, the window is created white. *)
Theorem C9_whitesmoke_not_resolved :
  main "xvisbell" Sample.strdup [mk_opt "c" "whitesmoke"] Sample.server
    Sample.idle
  = ([XOpenDisplay; XkbSelectEvents; XkbSetAutoResetControls;
      XkbChangeEnabledControls; XCreateWindow 0 0 1920 1080 16777215],
     Running)
  /\ color_table Sample.server "whitesmoke" = Some 16119285
  /\ color_table Sample.server "whiteXYZ" = None
  /\ main "xvisbell" Sample.strdup [mk_opt "c" "whiteXYZ"] Sample.server
       Sample.idle
     = ([XOpenDisplay; XkbSelectEvents; XkbSetAutoResetControls;
         XkbChangeEnabledControls; XCreateWindow 0 0 1920 1080 16777215],
        Running).
Proof. repeat split. Qed.

Lemma strncmp_white (rest : string) :
  strncmp (String.append "white" rest) "white" 5 = 0.
Proof. reflexivity. Qed.

Lemma background_pixel_white (X : xserver) (rest : string) :
  background_pixel X (Some (String.append "white" rest))
  = ([], Some (WhitePixel X)).
Proof. unfold background_pixel. rewrite strncmp_white. reflexivity. Qed.

(** C10.  For a colour argument that starts with the five characters
    [white], [main] takes the white pixel of the screen and makes no call
    of [XAllocNamedColor]: what it does is the same under every colour
    table, so the name can neither fail to resolve nor get the pixel the
    table has for it; where set-up succeeds, the window is created with the
    white pixel right after the Xkb calls. *)
Theorem C10_white_prefix_skips_lookup (rest : string) (c : config)
  (X : xserver) (run : run_input) :
  Bell.color (bell c) = Some (String.append "white" rest) ->
  background_pixel X (Bell.color (bell c)) = ([], Some (WhitePixel X))
  /\ (forall table : string -> option Z,
         main_configured c (with_color_table X table) run
         = main_configured c X run)
  /\ (display_opens X = true ->
      xkb_library_ok X = true ->
      xkb_extension_ok X = true ->
      main_configured c X run
      = (XOpenDisplay
           :: xkb_setup
           ++ create_window X (bell c) (WhitePixel X) :: fst (run_phase c run),
         snd (run_phase c run))).
Proof.
  intros Hcolor. split; [ | split ].
  - rewrite Hcolor. apply background_pixel_white.
  - intros table. unfold main_configured.
    rewrite Hcolor, !background_pixel_white. reflexivity.
  - intros Hopen Hlib Hext. unfold main_configured.
    rewrite Hopen, Hlib, Hext, Hcolor, background_pixel_white.
    cbn [negb]. destruct (run_phase c run) as [trr o]. reflexivity.
Qed.

Lemma C10_white_prefix_skips_lookup_witness :
  main_configured
    (mk_config (Bell.mk 0 0 (-1) (-1) 100 (Some "whitesmoke")) false)
    Sample.server Sample.idle
  = ([XOpenDisplay; XkbSelectEvents; XkbSetAutoResetControls;
      XkbChangeEnabledControls; XCreateWindow 0 0 1920 1080 16777215],
     Running).
Proof.
  exact (proj2 (proj2
    (C10_white_prefix_skips_lookup "smoke"
       (mk_config (Bell.mk 0 0 (-1) (-1) 100 (Some "whitesmoke")) false)
       Sample.server Sample.idle eq_refl)) eq_refl eq_refl eq_refl).
Defined.

(** ** Parsing the command line *)

Section ParseFacts.

Variable argv0 : string.
Variable strdup : string -> strdup_result.

(** Distinguishes the option characters of the [switch]. *)
Ltac by_option o :=
  unfold parse_option; cbv beta zeta;
  repeat match goal with
    | |- context [Ascii.eqb (opt o) ?ch] =>
        destruct (Ascii.eqb_spec (opt o) ch)
    end.

(** What an accepted option does to the width and the height: it prints
    nothing; [-w] and [-h] store the value read, or [-1] for a negative
    one, and no other option touches them. *)
Lemma parse_option_accepted (c c1 : config) (o : getopt_item)
  (tr : list action) :
  parse_option argv0 strdup c o = (tr, Parsed c1) ->
  tr = []
  /\ (if Ascii.eqb (opt o) "w"
      then exists v, parse_long (optarg o) = Some v /\ v <= CInt.UINT_MAX
                     /\ Bell.w (bell c1) = (if v <? 0 then -1 else v)
      else Bell.w (bell c1) = Bell.w (bell c))
  /\ (if Ascii.eqb (opt o) "h"
      then exists v, parse_long (optarg o) = Some v /\ v <= CInt.UINT_MAX
                     /\ Bell.h (bell c1) = (if v <? 0 then -1 else v)
      else Bell.h (bell c1) = Bell.h (bell c)).
Proof.
  by_option o; try discriminate;
    repeat match goal with
      | H : opt o = _ |- _ => rewrite H in *; clear H
      end;
    cbn [Ascii.eqb Bool.eqb andb];
    repeat match goal with
      | |- context [parse_long ?s] => destruct (parse_long s) as [v |]
      | |- context [parse_ulong ?s] => destruct (parse_ulong s) as [v |]
      | |- context [strdup ?s] => destruct (strdup s)
      | |- context [?a >? ?b] => destruct (Z.gtb_spec a b)
      | |- context [(?a || ?b)%bool] => destruct (a || b)%bool
      end;
    try discriminate;
    intros [= <- <-]; cbn [bell with_bell Bell.w Bell.h];
    repeat split; try reflexivity;
    eexists; repeat split; try reflexivity; assumption.
Qed.


End ParseFacts.

(** ** The size of the window *)




(** ** Arguments that are turned down *)

Lemma isspace_not_digit (c : ascii) : isspace c = true -> digit_of c = None.
Proof.
  unfold isspace, digit_of. intros H.
  destruct (N.eqb_spec (N_of_ascii c) 32) as [E | _].
  - rewrite E. reflexivity.
  - cbn [orb] in H. apply andb_prop in H. destruct H as [H9 H13].
    apply N.leb_le in H9, H13.
    destruct (Z.leb_spec 48 (Z.of_N (N_of_ascii c))); [ lia | reflexivity ].
Qed.

Lemma non_numeric_skip_spaces (s : string) :
  non_numeric (skip_spaces s) = non_numeric s.
Proof.
  induction s as [| c r IH]; [ reflexivity | ].
  cbn [skip_spaces]. destruct (isspace c) eqn:Hsp; [ | reflexivity ].
  rewrite IH. cbn [non_numeric]. unfold numeric_char.
  rewrite (isspace_not_digit c Hsp), Hsp. reflexivity.
Qed.

Lemma non_numeric_take_sign (s : string) :
  non_numeric (snd (take_sign s)) = non_numeric s.
Proof.
  destruct s as [| c r]; [ reflexivity | ].
  cbn [take_sign].
  destruct (Ascii.eqb_spec c "-") as [-> | _]; [ reflexivity | ].
  destruct (Ascii.eqb_spec c "+") as [-> | _]; reflexivity.
Qed.

Lemma non_numeric_take_digits (s : string) :
  forall acc : Z, non_numeric (snd (take_digits s acc)) = non_numeric s.
Proof.
  induction s as [| c r IH]; intros acc; [ reflexivity | ].
  cbn [take_digits]. destruct (digit_of c) as [d |] eqn:Hd; [ | reflexivity ].
  specialize (IH (acc * 10 + d)).
  destruct (take_digits r (acc * 10 + d)) as [[v n] rest].
  cbn [snd non_numeric] in *. unfold numeric_char. rewrite Hd. exact IH.
Qed.

Lemma non_numeric_not_at_nul (s : string) :
  non_numeric s = true -> at_nul s = false.
Proof. destruct s; [ discriminate | reflexivity ]. Qed.

(** Both conversions stop before the end of a text that has a character
    which is no digit, sign or white space. *)
Lemma strtol_stops_early (s : string) :
  non_numeric s = true -> at_nul (snd (fst (strtol s))) = false.
Proof.
  intros Hs. apply non_numeric_not_at_nul. unfold strtol.
  pose proof (non_numeric_take_sign (skip_spaces s)) as Hsign.
  destruct (take_sign (skip_spaces s)) as [neg s'].
  pose proof (non_numeric_take_digits s' 0) as Hdig.
  destruct (take_digits s' 0) as [[v n] rest].
  cbn [snd] in *. rewrite non_numeric_skip_spaces in Hsign.
  destruct n as [| n]; [ exact Hs | ].
  destruct ((if neg then - v else v) >? CInt.LONG_MAX);
    [ | destruct ((if neg then - v else v) <? CInt.LONG_MIN) ];
    cbn [fst snd]; congruence.
Qed.

Lemma strtoul_stops_early (s : string) :
  non_numeric s = true -> at_nul (snd (fst (strtoul s))) = false.
Proof.
  intros Hs. apply non_numeric_not_at_nul. unfold strtoul.
  pose proof (non_numeric_take_sign (skip_spaces s)) as Hsign.
  destruct (take_sign (skip_spaces s)) as [neg s'].
  pose proof (non_numeric_take_digits s' 0) as Hdig.
  destruct (take_digits s' 0) as [[v n] rest].
  cbn [snd] in *. rewrite non_numeric_skip_spaces in Hsign.
  destruct n as [| n]; [ exact Hs | ].
  destruct (v >? CInt.ULONG_MAX); cbn [fst snd]; congruence.
Qed.

Lemma parse_long_non_numeric (s : string) :
  non_numeric s = true -> parse_long s = None.
Proof.
  intros Hs. pose proof (strtol_stops_early s Hs) as Hend.
  unfold parse_long. destruct (strtol s) as [[parsed end_] erange].
  cbn [fst snd] in Hend. rewrite Hend.
  destruct (erange && ((parsed =? CInt.LONG_MAX) || (parsed =? CInt.LONG_MIN)));
    reflexivity.
Qed.

Lemma parse_ulong_non_numeric (s : string) :
  non_numeric s = true -> parse_ulong s = None.
Proof.
  intros Hs. pose proof (strtoul_stops_early s Hs) as Hend.
  unfold parse_ulong. destruct (strtoul s) as [[r end_] erange].
  cbn [fst snd] in Hend. rewrite Hend.
  destruct (erange && ((CInt.to_long r =? CInt.LONG_MAX) || (CInt.to_long r <? 0)));
    reflexivity.
Qed.

Section TurnedDown.

Variable argv0 : string.
Variable strdup : string -> strdup_result.

(** Runs the [switch] on an option whose character is known. *)
Ltac switch_on H :=
  unfold parse_option; cbv beta zeta; rewrite H;
  cbn [Ascii.eqb Bool.eqb andb zero].

(** The messages about a numeric argument are not the usage text. *)
Lemma announces_not_usage (o : getopt_item) (r : rejection)
  (message : action) (args : list printf_arg) :
  announces o r message -> message <> Printf usage_fmt args.
Proof.
  destruct r; cbn [announces].
  - intros ->. unfold text_error.
    repeat match goal with
           | |- context [Ascii.eqb ?a ?b] => destruct (Ascii.eqb a b)
           end; discriminate.
  - intros [n ->]. unfold extent_error.
    destruct (Ascii.eqb (opt o) "w"); discriminate.
  - intros ->. unfold position_error.
    destruct (Ascii.eqb (opt o) "x"); discriminate.
Qed.

(** An argument that is turned down makes [parse_args] print one message,
    the one of its option and of the reason, and exit with status 1. *)
Lemma parse_option_turned_down (c : config) (o : getopt_item)
  (r : rejection) :
  turned_down o r ->
  exists message : action,
    parse_option argv0 strdup c o = ([message], ParseExit 1)
    /\ announces o r message.
Proof.
  intros Htd.
  assert (Hlong : forall o, reads_long (opt o) ->
            parse_long (optarg o) = None ->
            exists message : action,
              parse_option argv0 strdup c o = ([message], ParseExit 1)
              /\ announces o Bad_text message).
  { intros o' [H | [H | [H | H]]] Hnone; switch_on H; rewrite Hnone;
      eexists; (split; [ reflexivity | ]);
      cbn [announces]; unfold text_error; rewrite H; reflexivity. }
  assert (Hulong : forall o, opt o = "d"%char ->
            parse_ulong (optarg o) = None ->
            exists message : action,
              parse_option argv0 strdup c o = ([message], ParseExit 1)
              /\ announces o Bad_text message).
  { intros o' H Hnone; switch_on H; rewrite Hnone;
      eexists; (split; [ reflexivity | ]);
      cbn [announces]; unfold text_error; rewrite H; reflexivity. }
  destruct Htd as [o [Hl | Hd] Hjunk | o Hl Hnone | o Hd Hnone
                  | o v [H | H] Hv Hmax | o v [H | H] Hv Hrange].
  - apply Hlong; [ exact Hl | apply parse_long_non_numeric, Hjunk ].
  - apply Hulong; [ exact Hd | apply parse_ulong_non_numeric, Hjunk ].
  - apply Hlong; assumption.
  - apply Hulong; assumption.
  - switch_on H. rewrite Hv.
    destruct (Z.gtb_spec v CInt.UINT_MAX); [ | lia ].
    eexists; (split; [ reflexivity | ]).
    cbn [announces]; unfold extent_error; rewrite H. eexists; reflexivity.
  - switch_on H. rewrite Hv.
    destruct (Z.gtb_spec v CInt.UINT_MAX); [ | lia ].
    eexists; (split; [ reflexivity | ]).
    cbn [announces]; unfold extent_error; rewrite H. eexists; reflexivity.
  - switch_on H. rewrite Hv.
    assert (Hb : (v <? CInt.INT_MIN) || (v >? CInt.INT_MAX) = true).
    { destruct (Z.ltb_spec v CInt.INT_MIN); [ reflexivity | ].
      destruct (Z.gtb_spec v CInt.INT_MAX); [ reflexivity | lia ]. }
    rewrite Hb. eexists; (split; [ reflexivity | ]).
    cbn [announces]; unfold position_error; rewrite H; reflexivity.
  - switch_on H. rewrite Hv.
    assert (Hb : (v <? CInt.INT_MIN) || (v >? CInt.INT_MAX) = true).
    { destruct (Z.ltb_spec v CInt.INT_MIN); [ reflexivity | ].
      destruct (Z.gtb_spec v CInt.INT_MAX); [ reflexivity | lia ]. }
    rewrite Hb. eexists; (split; [ reflexivity | ]).
    cbn [announces]; unfold position_error; rewrite H; reflexivity.
Qed.

(** [parse_args] stops at the first option that makes it exit; the options
    accepted before it have printed nothing. *)
Lemma parse_args_stops (pre : list getopt_item) :
  forall (c0 c : config) (tr tr' : list action) (o : getopt_item)
         (rest : list getopt_item) (status : Z),
    parse_args argv0 strdup c0 pre = (tr, Parsed c) ->
    parse_option argv0 strdup c o = (tr', ParseExit status) ->
    parse_args argv0 strdup c0 (pre ++ o :: rest) = (tr', ParseExit status).
Proof.
  induction pre as [| p pre IH]; intros c0 c tr tr' o rest status;
    cbn [parse_args app].
  - intros [= <- <-] ->. reflexivity.
  - destruct (parse_option argv0 strdup c0 p) as [tr1 [c1 | st1]] eqn:Hp;
      [ | discriminate ].
    destruct (parse_option_accepted _ _ _ _ _ _ Hp) as (-> & _).
    destruct (parse_args argv0 strdup c1 pre) as [tr2 r] eqn:Hpre.
    intros [= <- ->] Ho.
    rewrite (IH _ _ _ _ _ rest _ Hpre Ho). reflexivity.
Qed.

End TurnedDown.

(** C8, as the code has it.  When the argument of a numeric option is turned
    down (the text has a character that is no digit, sign or white space,
    or [parse_long] or [parse_ulong] rejects it otherwise, or the value is
    out of the range of the option) after options that were accepted, the
    program prints exactly one message and exits with status 1.  For a
    text that was rejected the message is the [Invalid ... %s] line of the
    option with that text; for an x or y out of range it is the line that
    names [INT_MIN] and [INT_MAX]; for a width or height that is too large
    it is the line about the maximum width or height.  The usage text is
    not printed and no display connection is opened. *)
Theorem C8_turned_down_argument (argv0 : string)
  (strdup : string -> strdup_result) (pre rest : list getopt_item)
  (o : getopt_item) (tr : list action) (c : config)
  (r : rejection) (X : xserver) (run : run_input) :
  parse_args argv0 strdup default_config pre = (tr, Parsed c) ->
  turned_down o r ->
  (exists message : action,
      main argv0 strdup (pre ++ o :: rest) X run = ([message], Exited 1)
      /\ announces o r message)
  /\ ~ In (Printf usage_fmt [PStr argv0])
          (fst (main argv0 strdup (pre ++ o :: rest) X run))
  /\ ~ In XOpenDisplay (fst (main argv0 strdup (pre ++ o :: rest) X run)).
Proof.
  intros Hpre Htd.
  destruct (parse_option_turned_down argv0 strdup c o r Htd)
    as (message & Ho & Hsays).
  assert (Hmain : main argv0 strdup (pre ++ o :: rest) X run
                  = ([message], Exited 1)).
  { unfold main.
    rewrite (parse_args_stops argv0 strdup pre _ _ _ _ _ rest _ Hpre Ho).
    reflexivity. }
  rewrite Hmain. cbn [fst In]. split; [ | split ].
  - exists message. split; [ reflexivity | exact Hsays ].
  - intros [Heq | []].
    apply (announces_not_usage o r message [PStr argv0] Hsays). exact Heq.
  - intros [Heq | []]. subst message.
    destruct r; cbn [announces] in Hsays;
      [ discriminate Hsays | destruct Hsays as [n Hn]; discriminate Hn
      | discriminate Hsays ].
Qed.

Lemma C8_turned_down_argument_witness :
  exists message : action,
    main "xvisbell" Sample.strdup
      ([mk_opt "x" "10"] ++ mk_opt "d" "12abc" :: [mk_opt "f" ""])
      Sample.server Sample.idle
    = ([message], Exited 1)
    /\ message
       = Printf
           "Invalid duration %s. Should be a non-negative number of milliseconds.\n"
           [PStr "12abc"].
Proof.
  refine (proj1 (C8_turned_down_argument "xvisbell" Sample.strdup
            [mk_opt "x" "10"] [mk_opt "f" ""] (mk_opt "d" "12abc")
            [] (mk_config (Bell.mk 10 0 (-1) (-1) 100 None) false)
            Bad_text Sample.server Sample.idle eq_refl _)).
  apply (Td_non_numeric (mk_opt "d" "12abc")).
  - right. reflexivity.
  - reflexivity.
Defined.

(** The claim of C8 as the specification words it fails for [-w
    4294967296]: the only output is the message about the maximum width,
    which does not name the argument ([%d] prints [UINT_MAX] as [-1]), and
    no usage text follows it. *)
Lemma C8_no_usage_after_error :
  main "xvisbell" Sample.strdup [mk_opt "w" "4294967296"] Sample.server
    Sample.idle
  = ([Printf "Invalid width. The maximum width is %d\n" [PInt (-1)]],
     Exited 1)
  /\ ~ (exists (fmt : string) (args : list printf_arg) (status : Z),
           main "xvisbell" Sample.strdup [mk_opt "w" "4294967296"]
             Sample.server Sample.idle
           = (Printf fmt args :: print_usage "xvisbell", Exited status)
           /\ In (PStr "4294967296") args
           /\ status <> 0).
Proof.
  split; [ reflexivity | ].
  intros (fmt & args & status & Hmain & _). discriminate Hmain.
Qed.

(** ** What holds of the timing besides *)

Lemma x11select_timeouts (timeout : timespec) (answers : list select_result) :
  exists tr : list action,
    fst (x11select timeout answers) = Pselect (Some timeout) :: tr
    /\ Forall (pselect_with timeout) tr.
Proof.
  induction answers as [| a rest IH]; cbn [x11select hd_error pselect].
  - destruct (timespec_valid timeout); cbn [EINVAL EINTR Z.eqb Pos.eqb fst].
    + exists []. split; [ reflexivity | constructor ].
    + eexists. split; [ reflexivity | ].
      constructor; [ intros t; discriminate | constructor ].
  - destruct (timespec_valid timeout).
    + destruct a as [n | e].
      * exists []. split; [ reflexivity | constructor ].
      * destruct (e =? EINTR).
        -- destruct (x11select timeout rest) as [tr r]. cbn [fst] in *.
           destruct IH as (tr' & -> & Htr').
           eexists. split; [ reflexivity | ].
           constructor; [ intros t [= <-]; reflexivity | exact Htr' ].
        -- eexists. split; [ reflexivity | ].
           constructor; [ intros t; discriminate | constructor ].
    + cbn [EINVAL EINTR Z.eqb Pos.eqb fst].
      eexists. split; [ reflexivity | ].
      constructor; [ intros t; discriminate | constructor ].
Qed.

Lemma update_timeout_and_hide_timeouts (now timeout : timespec)
  (st : loop_state) :
  Forall (pselect_with timeout) (snd (update_timeout_and_hide now st)).
Proof.
  unfold update_timeout_and_hide.
  destruct (is_zero (timespec_diff now (end_time st))); cbn [snd];
    repeat constructor; intros t; discriminate.
Qed.

Lemma drain_events_timeouts (duration timeout : timespec)
  (evs : list pending_event) :
  forall st : loop_state,
    Forall (pselect_with timeout) (snd (drain_events duration st evs)).
Proof.
  induction evs as [| ev rest IH]; intros st; cbn [drain_events].
  - constructor.
  - destruct (handle_event duration st ev) as [st1 tr1] eqn:Hev.
    specialize (IH st1).
    destruct (drain_events duration st1 rest) as [st2 tr2]. cbn [snd] in *.
    apply Forall_app. split; [ | exact IH ].
    unfold handle_event in Hev.
    destruct (negb (xkb_type ev =? XkbBellNotify)); injection Hev as <- <-;
      repeat constructor; intros t; discriminate.
Qed.

(** In an iteration that starts with the window visible, [pselect] is
    called, and every call of it in the iteration, the first one and each
    one made again after [EINTR], is given the one timeout computed from
    the clock reading at the start of the iteration.  That timeout is not
    negative and not longer than the time from that reading to the
    deadline, also for a deadline whose nanoseconds have passed one
    second. *)
Theorem wait_never_past_deadline (duration : timespec) (st : loop_state)
  (it : iteration) :
  visible st = true ->
  normalized (clock_before it) ->
  0 <= tv_nsec (end_time st) ->
  exists timeout : timespec,
    0 <= nanos timeout
         <= Z.max 0 (nanos (end_time st) - nanos (clock_before it))
    /\ In (Pselect (Some timeout)) (fst (loop_iteration duration st it))
    /\ Forall (pselect_with timeout) (fst (loop_iteration duration st it)).
Proof.
  intros Hvis Hnow Hnn.
  exists (timespec_diff (clock_before it) (end_time st)).
  split.
  { unfold normalized, nanos, NSEC_PER_SEC in *. unfold timespec_diff.
    zcompare; cbn [tv_sec tv_nsec orb andb]; lia. }
  set (timeout := timespec_diff (clock_before it) (end_time st)).
  pose proof (update_timeout_and_hide_timeouts (clock_before it) timeout st)
    as Hfirst.
  assert (Ht : fst (fst (update_timeout_and_hide (clock_before it) st))
               = timeout).
  { unfold update_timeout_and_hide. fold timeout.
    destruct (is_zero timeout); reflexivity. }
  unfold loop_iteration, wait_timeout. rewrite Hvis.
  destruct (update_timeout_and_hide (clock_before it) st)
    as [[timeout' st1] tr1].
  cbn [fst snd] in Ht, Hfirst. subst timeout'.
  destruct (x11select_timeouts timeout (select_answers it)) as (tr & Hsel & Htr).
  destruct (x11select timeout (select_answers it)) as [tr2 w].
  cbn [fst] in Hsel. subst tr2.
  assert (Hcall : pselect_with timeout (Pselect (Some timeout))).
  { intros t [= <-]. reflexivity. }
  assert (Hwait : Forall (pselect_with timeout)
                    (tr1 ++ Pselect (Some timeout) :: tr)).
  { apply Forall_app. split; [ exact Hfirst | ].
    constructor; [ exact Hcall | exact Htr ]. }
  assert (Hin : In (Pselect (Some timeout))
                  (tr1 ++ Pselect (Some timeout) :: tr)).
  { apply in_or_app. right. left. reflexivity. }
  destruct w as [| errno |]; cbn [fst]; try (split; assumption).
  assert (Hafter : Forall (pselect_with timeout)
            (snd (if visible st1
                  then update_timeout_and_hide (clock_after it) st1
                  else (timeout, st1, [])))).
  { destruct (visible st1);
      [ apply update_timeout_and_hide_timeouts | constructor ]. }
  destruct (if visible st1
            then update_timeout_and_hide (clock_after it) st1
            else (timeout, st1, [])) as [[t2 st2] tr3].
  cbn [snd] in Hafter.
  pose proof (drain_events_timeouts duration timeout (pending it) st2) as Hdrain.
  destruct (drain_events duration st2 (pending it)) as [st3 tr4].
  cbn [fst snd] in *. split.
  - apply in_or_app. right. left. reflexivity.
  - apply Forall_app. split; [ exact Hfirst | ].
    constructor; [ exact Hcall | ].
    apply Forall_app. split; [ exact Htr | ].
    apply Forall_app. split; [ exact Hafter | exact Hdrain ].
Qed.

Lemma wait_never_past_deadline_witness :
  exists timeout : timespec,
    0 <= nanos timeout
         <= Z.max 0 (nanos (mk_timespec 11 1499999000)
                     - nanos (mk_timespec 11 2000))
    /\ In (Pselect (Some timeout))
         (fst (loop_iteration (duration_of_ms 1500)
                 (mk_state true (mk_timespec 11 1499999000))
                 (mk_iteration (mk_timespec 11 2000)
                    [SelError EINTR; SelReady 1] (mk_timespec 11 3000) [])))
    /\ Forall (pselect_with timeout)
         (fst (loop_iteration (duration_of_ms 1500)
                 (mk_state true (mk_timespec 11 1499999000))
                 (mk_iteration (mk_timespec 11 2000)
                    [SelError EINTR; SelReady 1] (mk_timespec 11 3000) []))).
Proof.
  apply (wait_never_past_deadline (duration_of_ms 1500)
           (mk_state true (mk_timespec 11 1499999000))
           (mk_iteration (mk_timespec 11 2000)
              [SelError EINTR; SelReady 1] (mk_timespec 11 3000) [])).
  - reflexivity.
  - unfold normalized, NSEC_PER_SEC. cbn [clock_before tv_nsec]. lia.
  - cbn [tv_nsec end_time]. lia.
Defined.

(** A bell handled at [t1], whatever the state before: the window is
    mapped, the state is visible, and the one deadline is [t1 + duration].
    A check at or after that instant hides the window; a check before it
    leaves the window mapped provided the nanoseconds of the stored deadline
    stay below one second. *)
Theorem bell_resets_the_deadline (duration t1 now : timespec)
  (st : loop_state) :
  normalized now ->
  normalized t1 ->
  0 <= tv_nsec duration ->
  handle_event duration st (mk_event XkbBellNotify t1)
  = (mk_state true (add_duration t1 duration),
     [XMapRaised; ClockGettime t1; Set_end_time (add_duration t1 duration)])
  /\ nanos (add_duration t1 duration) = nanos t1 + nanos duration
  /\ (nanos t1 + nanos duration <= nanos now ->
      visible (snd (fst (update_timeout_and_hide now
                           (mk_state true (add_duration t1 duration)))))
      = false)
  /\ (tv_nsec t1 + tv_nsec duration < NSEC_PER_SEC ->
      nanos now < nanos t1 + nanos duration ->
      visible (snd (fst (update_timeout_and_hide now
                           (mk_state true (add_duration t1 duration)))))
      = true).
Proof.
  intros Hnow Ht1 Hd.
  assert (Hsum : nanos (add_duration t1 duration) = nanos t1 + nanos duration).
  { unfold nanos, add_duration. cbn [tv_sec tv_nsec]. lia. }
  assert (Hnn : 0 <= tv_nsec (add_duration t1 duration)).
  { unfold normalized in Ht1. cbn [add_duration tv_nsec]. lia. }
  repeat split.
  - exact Hsum.
  - intros Hle. unfold update_timeout_and_hide. cbn [end_time].
    rewrite (timespec_diff_passed now _ Hnow Hnn) by lia. reflexivity.
  - intros Hns Hlt. unfold update_timeout_and_hide. cbn [end_time].
    destruct (timespec_diff_exact now (add_duration t1 duration) Hnow Hnn)
      as (_ & _ & ->); [ exact Hns | lia | reflexivity ].
Qed.

Lemma bell_resets_the_deadline_witness :
  visible (snd (fst (update_timeout_and_hide (mk_timespec 10 250000000)
                       (mk_state true
                          (add_duration (mk_timespec 10 200000000)
                             (duration_of_ms 100))))))
  = true.
Proof.
  refine (proj2 (proj2 (proj2
    (bell_resets_the_deadline (duration_of_ms 100)
       (mk_timespec 10 200000000) (mk_timespec 10 250000000)
       (mk_state false (mk_timespec 0 0)) _ _ _))) _ _);
    unfold normalized, nanos, NSEC_PER_SEC, duration_of_ms; cbn; lia.
Defined.

(** ** One-shot mode *)

Lemma flash_wait_exits (end_time now : timespec)
  (early rest : list timespec) :
  Forall (fun t => is_zero (timespec_diff t end_time) = false) early ->
  is_zero (timespec_diff now end_time) = true ->
  flash_wait end_time (early ++ now :: rest)
  = (sleeps end_time early ++ [ClockGettime now; XUnmapWindow], Exited 0).
Proof.
  intros Hearly Hnow.
  induction Hearly as [| t early Ht _ IH]; cbn [app flash_wait sleeps flat_map].
  - rewrite Hnow. reflexivity.
  - rewrite Ht. fold (sleeps end_time early). rewrite IH. reflexivity.
Qed.

(** One-shot mode, when the nanoseconds of the first clock reading and of
    the duration add up to less than one second: the deadline is set once,
    the window is mapped and the request flushed; every reading before
    [start + duration] is followed by a sleep for exactly the time from
    that reading to [start + duration]; the first reading at or after
    [start + duration] is followed by [XUnmapWindow] and [exit(0)]. *)
Theorem one_shot_flash (duration start now : timespec)
  (early rest : list timespec) :
  normalized now ->
  0 <= tv_nsec start + tv_nsec duration < NSEC_PER_SEC ->
  Forall (fun t => normalized t /\ nanos t < nanos start + nanos duration)
         early ->
  nanos start + nanos duration <= nanos now ->
  flash_once_and_exit duration start (early ++ now :: rest)
  = (ClockGettime start
       :: Set_end_time (add_duration start duration)
       :: XMapRaised :: XFlush
       :: sleeps (add_duration start duration) early
       ++ [ClockGettime now; XUnmapWindow],
     Exited 0)
  /\ Forall (fun t =>
               nanos (timespec_diff t (add_duration start duration))
               = nanos start + nanos duration - nanos t)
            early.
Proof.
  intros Hnow Hsum Hearly Hpassed.
  assert (Hend : nanos (add_duration start duration)
                 = nanos start + nanos duration).
  { unfold nanos, add_duration. cbn [tv_sec tv_nsec]. lia. }
  assert (Hnn : 0 <= tv_nsec (add_duration start duration)).
  { cbn [add_duration tv_nsec]. lia. }
  assert (Hns : tv_nsec (add_duration start duration) < NSEC_PER_SEC).
  { cbn [add_duration tv_nsec]. lia. }
  assert (Hleft : Forall (fun t =>
            nanos (timespec_diff t (add_duration start duration))
            = nanos start + nanos duration - nanos t
            /\ is_zero (timespec_diff t (add_duration start duration))
               = false) early).
  { apply (Forall_impl _ (P := fun t => normalized t
                             /\ nanos t < nanos start + nanos duration));
      [ | exact Hearly ].
    intros t [Ht Hlt].
    destruct (timespec_diff_exact t (add_duration start duration) Ht Hnn Hns)
      as (Hv & _ & Hz); [ lia | ].
    split; [ lia | exact Hz ]. }
  split.
  - unfold flash_once_and_exit.
    rewrite (flash_wait_exits (add_duration start duration) now early rest).
    + reflexivity.
    + apply (Forall_impl _ (P := fun t =>
            nanos (timespec_diff t (add_duration start duration))
            = nanos start + nanos duration - nanos t
            /\ is_zero (timespec_diff t (add_duration start duration))
               = false)); [ intros t [_ Hz]; exact Hz | exact Hleft ].
    + rewrite (timespec_diff_passed now (add_duration start duration) Hnow).
      * reflexivity.
      * exact Hnn.
      * lia.
  - apply (Forall_impl _ (P := fun t =>
            nanos (timespec_diff t (add_duration start duration))
            = nanos start + nanos duration - nanos t
            /\ is_zero (timespec_diff t (add_duration start duration))
               = false)); [ intros t [Hv _]; exact Hv | exact Hleft ].
Qed.

Lemma one_shot_flash_witness :
  flash_once_and_exit (duration_of_ms 100) (mk_timespec 10 500000000)
    ([mk_timespec 10 500001000] ++ mk_timespec 10 600002000 :: [])
  = ([ClockGettime (mk_timespec 10 500000000);
      Set_end_time (mk_timespec 10 600000000);
      XMapRaised; XFlush;
      ClockGettime (mk_timespec 10 500001000);
      Nanosleep (mk_timespec 0 99999000);
      ClockGettime (mk_timespec 10 600002000); XUnmapWindow],
     Exited 0).
Proof.
  refine (proj1 (one_shot_flash (duration_of_ms 100)
            (mk_timespec 10 500000000) (mk_timespec 10 600002000)
            [mk_timespec 10 500001000] [] _ _ _ _)).
  - unfold normalized, NSEC_PER_SEC. cbn. lia.
  - unfold NSEC_PER_SEC. cbn. lia.
  - constructor; [ | constructor ].
    unfold normalized, nanos, NSEC_PER_SEC. cbn. lia.
  - unfold nanos, NSEC_PER_SEC. cbn. lia.
Defined.

(** ** Colour names that do not start with [white] *)

(** Without [-c] the background is the white pixel.  A name whose first
    five characters are not [white] is looked up in the colour table of
    the server: the pixel found becomes the background of the window, and
    a name the table does not have makes [main] print the message naming
    it and exit with status 1 before any window is created. *)
Theorem colour_lookup (c : config) (X : xserver) (run : run_input) :
  display_opens X = true ->
  xkb_library_ok X = true ->
  xkb_extension_ok X = true ->
  match Bell.color (bell c) with
  | None =>
      main_configured c X run
      = (XOpenDisplay
           :: xkb_setup
           ++ create_window X (bell c) (WhitePixel X) :: fst (run_phase c run),
         snd (run_phase c run))
  | Some name =>
      strncmp name "white" 5 <> 0 ->
      match color_table X name with
      | Some pixel =>
          main_configured c X run
          = (XOpenDisplay
               :: xkb_setup
               ++ XAllocNamedColor name
               :: create_window X (bell c) pixel :: fst (run_phase c run),
             snd (run_phase c run))
      | None =>
          main_configured c X run
          = (XOpenDisplay
               :: xkb_setup
               ++ [XAllocNamedColor name;
                   Printf "Colour %s isn't supported\n" [PStr name]],
             Exited 1)
      end
  end.
Proof.
  intros Hopen Hlib Hext. unfold main_configured, background_pixel.
  rewrite Hopen, Hlib, Hext. cbn [negb].
  destruct (Bell.color (bell c)) as [name |].
  - intros Hname. destruct (Z.eqb_spec (strncmp name "white" 5) 0); [ tauto | ].
    destruct (color_table X name) as [pixel |].
    + destruct (run_phase c run) as [trr o]. reflexivity.
    + reflexivity.
  - destruct (run_phase c run) as [trr o]. reflexivity.
Qed.

Lemma colour_lookup_witness :
  main_configured
    (mk_config (Bell.mk 0 0 (-1) (-1) 100 (Some "notacolor123")) false)
    Sample.server Sample.idle
  = ([XOpenDisplay; XkbSelectEvents; XkbSetAutoResetControls;
      XkbChangeEnabledControls; XAllocNamedColor "notacolor123";
      Printf "Colour %s isn't supported\n" [PStr "notacolor123"]],
     Exited 1).
Proof.
  refine (colour_lookup
            (mk_config (Bell.mk 0 0 (-1) (-1) 100 (Some "notacolor123")) false)
            Sample.server Sample.idle eq_refl eq_refl eq_refl _).
  vm_compute. discriminate.
Defined.

(** [parse_ulong] takes a duration with a minus sign: [strtoul] negates in
    [unsigned long] without a range error, so [-d -5] sets a duration of
    [2^64 - 5] milliseconds although the message of the option asks for a
    non-negative number. *)
Lemma negative_duration_is_accepted :
  parse_ulong "-5" = Some 18446744073709551611
  /\ fst (parse_args "xvisbell" Sample.strdup default_config
            [mk_opt "d" "-5"]) = [].
Proof. split; reflexivity. Qed.

(** ** A batch of events *)

Lemma handle_event_not_bell (duration : timespec) (st : loop_state)
  (ev : pending_event) :
  is_bell ev = false -> handle_event duration st ev = (st, []).
Proof. unfold handle_event, is_bell. intros ->. reflexivity. Qed.

Lemma handle_event_bell (duration : timespec) (st : loop_state)
  (ev : pending_event) :
  is_bell ev = true ->
  handle_event duration st ev
  = (mk_state true (add_duration (handled_at ev) duration),
     [XMapRaised; ClockGettime (handled_at ev);
      Set_end_time (add_duration (handled_at ev) duration)]).
Proof. unfold handle_event, is_bell. intros ->. reflexivity. Qed.

Lemma drain_events_shape (duration : timespec)
  (evs : list pending_event) (st : loop_state) :
  fst (drain_events duration st evs)
  = match last_bell evs with
    | Some t => mk_state true (add_duration t duration)
    | None => st
    end
  /\ count is_map (snd (drain_events duration st evs))
     = List.length (filter is_bell evs)
  /\ (last_bell evs = None -> snd (drain_events duration st evs) = []).
Proof.
  revert st. induction evs as [| ev rest IH]; intros st.
  - cbn. auto.
  - cbn [drain_events last_bell filter].
    destruct (is_bell ev) eqn:Hbell.
    + rewrite (handle_event_bell duration st ev Hbell).
      specialize (IH (mk_state true (add_duration (handled_at ev) duration))).
      destruct (drain_events duration _ rest) as [st2 tr2].
      cbn [fst snd] in *. destruct IH as (Hst & Hcount & _).
      repeat split.
      * rewrite Hst. destruct (last_bell rest); reflexivity.
      * unfold count in *. cbn. rewrite Hcount. reflexivity.
      * destruct (last_bell rest); discriminate.
    + rewrite (handle_event_not_bell duration st ev Hbell).
      specialize (IH st).
      destruct (drain_events duration st rest) as [st2 tr2].
      cbn [fst snd app] in *. destruct IH as (Hst & Hcount & Hnone).
      repeat split.
      * rewrite Hst. destruct (last_bell rest); reflexivity.
      * exact Hcount.
      * destruct (last_bell rest); [ discriminate | exact Hnone ].
Qed.

(** Draining a batch of pending events leaves the state as the last bell of
    the batch sets it (visible, with the deadline that bell gives), whatever
    came before it, and leaves the state alone and calls nothing when the
    batch has no bell; the window is mapped once for each bell. *)
Theorem drain_events_last_bell (duration : timespec)
  (evs : list pending_event) (st : loop_state) :
  fst (drain_events duration st evs)
  = match last_bell evs with
    | Some t => mk_state true (add_duration t duration)
    | None => st
    end
  /\ count is_map (snd (drain_events duration st evs))
     = List.length (filter is_bell evs)
  /\ (last_bell evs = None -> snd (drain_events duration st evs) = []).
Proof. apply drain_events_shape. Qed.

(** ** Interrupted waits *)

Lemma x11select_interrupted (timeout : timespec)
  (answers : list select_result) (n : nat) :
  timespec_valid timeout = true ->
  x11select timeout (repeat (SelError EINTR) n ++ answers)
  = (repeat (Pselect (Some timeout)) n ++ fst (x11select timeout answers),
     snd (x11select timeout answers)).
Proof.
  intros Hvalid. induction n as [| n IH].
  - cbn [repeat app]. destruct (x11select timeout answers). reflexivity.
  - cbn [repeat app x11select hd_error pselect]. rewrite Hvalid.
    cbn [EINTR Z.eqb Pos.eqb]. rewrite IH. reflexivity.
Qed.

Lemma x11select_invalid (timeout : timespec)
  (answers : list select_result) :
  timespec_valid timeout = false ->
  x11select timeout answers
  = ([Pselect (Some timeout); select_error EINVAL], SelectFailed EINVAL).
Proof.
  intros Hvalid.
  destruct answers; cbn [x11select hd_error pselect]; rewrite Hvalid;
    reflexivity.
Qed.

(** A wait that signals interrupt is tried again with the same timeout and
    ends as the wait without the interruptions does: the iteration reaches
    the same state and the same outcome, and while the timeout is a valid
    one the only difference in what is called is one more [pselect] for
    each interruption. *)
Theorem interrupts_are_retried (duration : timespec) (st : loop_state)
  (it : iteration) (n : nat) :
  snd (loop_iteration duration st (interrupted n it))
  = snd (loop_iteration duration st it)
  /\ (forall timeout : timespec,
         timespec_valid timeout = true ->
         x11select timeout (repeat (SelError EINTR) n ++ select_answers it)
         = (repeat (Pselect (Some timeout)) n
              ++ fst (x11select timeout (select_answers it)),
            snd (x11select timeout (select_answers it)))).
Proof.
  split.
  - unfold loop_iteration, interrupted.
    cbn [clock_before select_answers clock_after pending].
    destruct (wait_timeout st (clock_before it)) as [[timeout st1] tr1].
    destruct (timespec_valid timeout) eqn:Hvalid.
    + rewrite (x11select_interrupted timeout (select_answers it) n Hvalid).
      destruct (x11select timeout (select_answers it)) as [tr2 w].
      cbn [fst snd]. destruct w; try reflexivity.
      destruct (if visible st1
                then update_timeout_and_hide (clock_after it) st1
                else (timeout, st1, [])) as [[t2 st2] tr3].
      destruct (drain_events duration st2 (pending it)). reflexivity.
    + rewrite !(x11select_invalid timeout _ Hvalid). reflexivity.
  - intros timeout Hvalid. apply x11select_interrupted, Hvalid.
Qed.

Lemma interrupts_are_retried_witness :
  x11select (mk_timespec 0 99000000)
    (repeat (SelError EINTR) 2 ++ select_answers Sample.quiet)
  = (repeat (Pselect (Some (mk_timespec 0 99000000))) 2
       ++ fst (x11select (mk_timespec 0 99000000)
                 (select_answers Sample.quiet)),
     snd (x11select (mk_timespec 0 99000000) (select_answers Sample.quiet))).
Proof.
  exact (proj2 (interrupts_are_retried (mk_timespec 0 0)
                  (mk_state false (mk_timespec 0 0)) Sample.quiet 2)
           (mk_timespec 0 99000000) eq_refl).
Defined.

(** ** How the event loop ends *)

Lemma x11select_failed (timeout : timespec) (answers : list select_result) :
  forall errno : Z,
    snd (x11select timeout answers) = SelectFailed errno ->
    errno <> EINTR
    /\ exists pre : list action,
         fst (x11select timeout answers)
         = pre ++ [Pselect (Some timeout); select_error errno].
Proof.
  induction answers as [| a rest IH]; intros errno;
    cbn [x11select hd_error pselect].
  - destruct (timespec_valid timeout); cbn [fst snd]; [ discriminate | ].
    cbn [EINVAL EINTR Z.eqb Pos.eqb fst snd]. intros [= <-].
    split; [ discriminate | exists []; reflexivity ].
  - destruct (timespec_valid timeout).
    + destruct a as [n | e]; [ discriminate | ].
      destruct (Z.eqb_spec e EINTR) as [-> | Hne].
      * destruct (x11select timeout rest) as [tr r]. cbn [fst snd] in *.
        intros Hr. destruct (IH errno Hr) as (Hne & pre & ->).
        split; [ exact Hne | exists (Pselect (Some timeout) :: pre) ].
        reflexivity.
      * cbn [fst snd]. intros [= <-].
        split; [ exact Hne | exists []; reflexivity ].
    + cbn [EINVAL EINTR Z.eqb Pos.eqb fst snd]. intros [= <-].
      split; [ discriminate | exists []; reflexivity ].
Qed.

Lemma loop_iteration_exit (duration : timespec) (st st' : loop_state)
  (it : iteration) (tr : list action) (status : Z) :
  loop_iteration duration st it = (tr, Stop st' (Exited status)) ->
  status = 1
  /\ exists (pre : list action) (timeout : timespec) (errno : Z),
       tr = pre ++ [Pselect (Some timeout); select_error errno]
       /\ errno <> EINTR.
Proof.
  unfold loop_iteration.
  destruct (wait_timeout st (clock_before it)) as [[timeout st1] tr1].
  pose proof (x11select_failed timeout (select_answers it)) as Hsel.
  destruct (x11select timeout (select_answers it)) as [tr2 w].
  cbn [fst snd] in Hsel.
  destruct w as [| errno |].
  - destruct (if visible st1
              then update_timeout_and_hide (clock_after it) st1
              else (timeout, st1, [])) as [[t2 st2] tr3].
    destruct (drain_events duration st2 (pending it)). discriminate.
  - intros [= <- _ <-]. split; [ reflexivity | ].
    destruct (Hsel errno eq_refl) as (Hne & pre & ->).
    exists (tr1 ++ pre), timeout, errno.
    rewrite <- app_assoc. auto.
  - discriminate.
Qed.

Lemma main_loop_exit (duration : timespec) (script : list iteration) :
  forall (st : loop_state) (status : Z),
    snd (main_loop duration st script) = Exited status ->
    status = 1
    /\ exists (pre : list action) (timeout : timespec) (errno : Z),
         fst (fst (main_loop duration st script))
         = pre ++ [Pselect (Some timeout); select_error errno]
         /\ errno <> EINTR.
Proof.
  induction script as [| it rest IH]; intros st status; cbn [main_loop].
  - discriminate.
  - destruct (loop_iteration duration st it) as [tr [st1 | st1 o]] eqn:Hit.
    + specialize (IH st1 status).
      destruct (main_loop duration st1 rest) as [[tr' st2] o].
      cbn [fst snd] in *. intros Ho.
      destruct (IH Ho) as (Hs & pre & timeout & errno & -> & Hne).
      split; [ exact Hs | ].
      exists (tr ++ pre), timeout, errno. rewrite <- app_assoc. auto.
    + cbn [fst snd]. intros ->.
      apply (loop_iteration_exit _ _ _ _ _ _ Hit).
Qed.

(** The event loop is left in one way only: [pselect] fails with an error
    other than [EINTR], [main] prints the message with that error and
    returns 1.  No bell, clock reading or time-out ends it otherwise. *)
Theorem loop_leaves_on_select_failure (duration : timespec)
  (script : list iteration) (st : loop_state) (status : Z) :
  snd (main_loop duration st script) = Exited status ->
  status = 1
  /\ exists (pre : list action) (timeout : timespec) (errno : Z),
       fst (fst (main_loop duration st script))
       = pre ++ [Pselect (Some timeout); select_error errno]
       /\ errno <> EINTR.
Proof. apply main_loop_exit. Qed.

Lemma loop_leaves_on_select_failure_witness :
  1 = 1
  /\ exists (pre : list action) (timeout : timespec) (errno : Z),
       fst (fst (main_loop (duration_of_ms 1500)
                   (initial_state (mk_timespec 0 0))
                   Sample.bell_before_the_second))
       = pre ++ [Pselect (Some timeout); select_error errno]
       /\ errno <> EINTR.
Proof.
  exact (loop_leaves_on_select_failure (duration_of_ms 1500)
           Sample.bell_before_the_second
           (initial_state (mk_timespec 0 0)) 1 eq_refl).
Defined.

(** ** The loop before the first bell *)

Lemma x11select_zero_timeout (answers : list select_result) :
  Forall (fun a => a = Pselect (Some (mk_timespec 0 0))
                   \/ exists errno, a = select_error errno)
    (fst (x11select (mk_timespec 0 0) answers)).
Proof.
  induction answers as [| a rest IH];
    cbn [x11select hd_error pselect timespec_valid tv_sec tv_nsec
         Z.leb Z.ltb Z.compare NSEC_PER_SEC andb].
  - repeat constructor.
  - destruct a as [n | errno]; [ repeat constructor | ].
    destruct (errno =? EINTR).
    + destruct (x11select (mk_timespec 0 0) rest) as [tr r].
      cbn [fst] in *. constructor; [ left; reflexivity | exact IH ].
    + cbn [fst]. constructor; [ left; reflexivity | ].
      constructor; [ right; exists errno; reflexivity | constructor ].
Qed.

(** While no bell rings, a hidden window stays hidden: the state does not
    change, and all the loop does is call [pselect] with the timeout
    [{0, 0}], iteration after iteration, without reading the clock or
    touching the window (and print the error message if [pselect] fails). *)
Theorem hidden_until_a_bell (duration deadline : timespec)
  (script : list iteration) :
  silent script ->
  snd (fst (main_loop duration (mk_state false deadline) script))
  = mk_state false deadline
  /\ Forall (fun a => a = Pselect (Some (mk_timespec 0 0))
                      \/ exists errno, a = select_error errno)
       (fst (fst (main_loop duration (mk_state false deadline) script))).
Proof.
  intros Hsilent.
  induction Hsilent as [| it rest Hit _ IH]; cbn [main_loop].
  - split; [ reflexivity | constructor ].
  - unfold loop_iteration, wait_timeout. cbn [visible].
    pose proof (x11select_zero_timeout (select_answers it)) as Hsel.
    destruct (x11select (mk_timespec 0 0) (select_answers it)) as [tr2 w].
    cbn [fst] in Hsel. cbn [app].
    destruct w as [| errno |]; try (split; [ reflexivity | exact Hsel ]).
    destruct (drain_events_shape duration (pending it)
                (mk_state false deadline)) as (Hst & _ & Htr).
    rewrite Hit in Hst. specialize (Htr Hit).
    destruct (drain_events duration (mk_state false deadline) (pending it))
      as [st3 tr4].
    cbn [fst snd] in Hst, Htr. subst st3 tr4.
    destruct (main_loop duration (mk_state false deadline) rest)
      as [[tr' st2] o].
    cbn [fst snd] in *. destruct IH as (-> & Htr').
    split; [ reflexivity | ].
    rewrite app_nil_r. apply Forall_app. split; assumption.
Qed.

Lemma hidden_until_a_bell_witness :
  snd (fst (main_loop (duration_of_ms 100)
              (mk_state false (mk_timespec 0 0))
              [Sample.quiet; Sample.quiet]))
  = mk_state false (mk_timespec 0 0).
Proof.
  refine (proj1 (hidden_until_a_bell (duration_of_ms 100) (mk_timespec 0 0)
                   [Sample.quiet; Sample.quiet] _)).
  repeat constructor.
Defined.

(** ** What the options store *)

Section OptionFacts.

Variable argv0 : string.
Variable strdup : string -> strdup_result.

(** Splits the [switch] by the option character and by what the parsers
    and [strdup] answer. *)
Ltac switch_cases o :=
  unfold parse_option; cbv beta zeta;
  repeat match goal with
    | |- context [Ascii.eqb (opt o) ?ch] =>
        destruct (Ascii.eqb_spec (opt o) ch)
    end;
  repeat match goal with
    | H : opt o = _ |- _ => rewrite H in *; clear H
    end;
  cbn [Ascii.eqb Bool.eqb andb orb];
  repeat match goal with
    | |- context [parse_long ?s] =>
        let E := fresh "Hlong" in destruct (parse_long s) as [?v |] eqn:E
    | |- context [parse_ulong ?s] =>
        let E := fresh "Hulong" in destruct (parse_ulong s) as [?v |] eqn:E
    | |- context [strdup ?s] =>
        let E := fresh "Hdup" in destruct (strdup s) eqn:E
    | |- context [?a >? ?b] => destruct (Z.gtb_spec a b)
    | |- context [?a <? ?b] => destruct (Z.ltb_spec a b)
    | |- context [?a =? ?b] => destruct (Z.eqb_spec a b)
    end;
  cbn [orb andb].

(** An accepted option and the fields other than the width and height. *)
Lemma parse_option_fields (c c1 : config) (o : getopt_item)
  (tr : list action) :
  parse_option argv0 strdup c o = (tr, Parsed c1) ->
  (if Ascii.eqb (opt o) "x"
   then reads_position (optarg o) (Bell.x (bell c1))
   else Bell.x (bell c1) = Bell.x (bell c))
  /\ (if Ascii.eqb (opt o) "y"
      then reads_position (optarg o) (Bell.y (bell c1))
      else Bell.y (bell c1) = Bell.y (bell c))
  /\ (if Ascii.eqb (opt o) "d"
      then reads_duration (optarg o) (Bell.duration (bell c1))
      else Bell.duration (bell c1) = Bell.duration (bell c))
  /\ (if Ascii.eqb (opt o) "c"
      then reads_color strdup (optarg o) (Bell.color (bell c1))
      else Bell.color (bell c1) = Bell.color (bell c))
  /\ flash_once c1 = (flash_once c || Ascii.eqb (opt o) "f")%bool.
Proof.
  unfold reads_position, reads_duration, reads_color.
  switch_cases o; try discriminate;
    intros [= <- <-];
    cbn [bell with_bell flash_once Bell.x Bell.y Bell.duration Bell.color];
    rewrite ?orb_false_r, ?orb_true_r;
    repeat split; try reflexivity; try assumption;
    try (rewrite CIntFacts.to_int_id by lia;
         first [ reflexivity | assumption | lia ]);
    try (eexists; split; reflexivity).
Qed.

(** The status and the output of an option that ends the program. *)
Lemma parse_option_exit (c : config) (o : getopt_item) (tr : list action)
  (status : Z) :
  parse_option argv0 strdup c o = (tr, ParseExit status) ->
  (status = 0 \/ status = 1)
  /\ (status = 0 -> opt o = zero /\ tr = print_usage argv0).
Proof.
  switch_cases o; try discriminate; intros [= <- <-];
    (split; [ auto | ]); try discriminate; auto.
Qed.

Lemma parse_option_prints (c : config) (o : getopt_item) :
  Forall (fun a => is_printf a = true) (fst (parse_option argv0 strdup c o)).
Proof.
  switch_cases o; cbn [fst print_usage app]; repeat constructor.
Qed.

End OptionFacts.

Section CommandLine.

Variable argv0 : string.
Variable strdup : string -> strdup_result.

Lemma stored_field_step {A : Type} (reads : string -> A -> Prop)
  (ch : ascii) (o : getopt_item) (rest : list getopt_item)
  (v0 v1 v : A) :
  (if Ascii.eqb (opt o) ch then reads (optarg o) v1 else v1 = v0) ->
  stored_field reads v1 v (last_arg ch rest) ->
  stored_field reads v0 v (last_arg ch (o :: rest)).
Proof.
  unfold stored_field. cbn [last_arg].
  destruct (last_arg ch rest) as [s |]; [ auto | ].
  destruct (Ascii.eqb (opt o) ch); congruence.
Qed.

Lemma parse_args_fields (opts : list getopt_item) :
  forall (c0 c : config) (tr : list action),
    parse_args argv0 strdup c0 opts = (tr, Parsed c) ->
    stored_field reads_position (Bell.x (bell c0)) (Bell.x (bell c))
      (last_arg "x" opts)
    /\ stored_field reads_position (Bell.y (bell c0)) (Bell.y (bell c))
         (last_arg "y" opts)
    /\ stored_field reads_duration (Bell.duration (bell c0))
         (Bell.duration (bell c)) (last_arg "d" opts)
    /\ stored_field (reads_color strdup) (Bell.color (bell c0))
         (Bell.color (bell c)) (last_arg "c" opts)
    /\ flash_once c = (flash_once c0 || existsb is_flash_option opts)%bool.
Proof.
  induction opts as [| o rest IH]; intros c0 c tr; cbn [parse_args].
  - intros [= <- <-]. cbn. rewrite orb_false_r. auto.
  - destruct (parse_option argv0 strdup c0 o) as [tr1 [c1 | status]] eqn:Ho;
      [ | discriminate ].
    destruct (parse_option_fields _ _ _ _ _ _ Ho) as (Hx & Hy & Hd & Hc & Hf).
    destruct (parse_args argv0 strdup c1 rest) as [tr2 r] eqn:Hrest.
    intros [= <- ->].
    destruct (IH _ _ _ Hrest) as (IHx & IHy & IHd & IHc & IHf).
    repeat split; try (eapply stored_field_step; eassumption).
    rewrite IHf, Hf. cbn [existsb]. unfold is_flash_option at 2.
    rewrite orb_assoc. reflexivity.
Qed.

Lemma parse_args_exit (opts : list getopt_item) :
  forall (c0 : config) (tr : list action) (status : Z),
    parse_args argv0 strdup c0 opts = (tr, ParseExit status) ->
    (status = 0 \/ status = 1)
    /\ (status = 0 ->
        existsb (fun o => Ascii.eqb (opt o) zero) opts = true
        /\ tr = print_usage argv0).
Proof.
  induction opts as [| o rest IH]; intros c0 tr status; cbn [parse_args].
  - discriminate.
  - destruct (parse_option argv0 strdup c0 o) as [tr1 [c1 | st1]] eqn:Ho.
    + destruct (parse_option_accepted _ _ _ _ _ _ Ho) as (-> & _).
      destruct (parse_args argv0 strdup c1 rest) as [tr2 r] eqn:Hrest.
      intros [= <- ->]. destruct (IH _ _ _ Hrest) as (Hst & Hzero).
      split; [ exact Hst | ]. intros H0. destruct (Hzero H0) as (Hex & ->).
      cbn [existsb app]. rewrite Hex, orb_true_r. auto.
    + intros [= <- <-].
      destruct (parse_option_exit _ _ _ _ _ _ Ho) as (Hst & Hzero).
      split; [ exact Hst | ]. intros H0. destruct (Hzero H0) as (Hopt & ->).
      cbn [existsb]. rewrite Hopt. cbn. auto.
Qed.

Lemma parse_args_prints (opts : list getopt_item) :
  forall c0 : config,
    Forall (fun a => is_printf a = true)
      (fst (parse_args argv0 strdup c0 opts)).
Proof.
  induction opts as [| o rest IH]; intros c0; cbn [parse_args].
  - constructor.
  - pose proof (parse_option_prints argv0 strdup c0 o) as Ho.
    destruct (parse_option argv0 strdup c0 o) as [tr1 [c1 | st1]].
    + specialize (IH c1).
      destruct (parse_args argv0 strdup c1 rest) as [tr2 r].
      cbn [fst] in *. apply Forall_app. split; assumption.
    + exact Ho.
Qed.

End CommandLine.

(** For every command line [parse_args] accepts, each of the other fields
    holds what the last option for it supplied, and its default when there
    is none: [-x] and [-y] an integer in the range of [int] (default 0),
    [-d] the value [parse_ulong] reads (default 100), [-c] the copy of its
    argument (default: no name); one-shot mode is on exactly when some
    [-f] is given. *)
Theorem last_option_wins (argv0 : string)
  (strdup : string -> strdup_result) (opts : list getopt_item)
  (tr : list action) (c : config) :
  parse_args argv0 strdup default_config opts = (tr, Parsed c) ->
  stored_field reads_position 0 (Bell.x (bell c)) (last_arg "x" opts)
  /\ stored_field reads_position 0 (Bell.y (bell c)) (last_arg "y" opts)
  /\ stored_field reads_duration 100 (Bell.duration (bell c))
       (last_arg "d" opts)
  /\ stored_field (reads_color strdup) None (Bell.color (bell c))
       (last_arg "c" opts)
  /\ flash_once c = existsb is_flash_option opts.
Proof. intros Hparse. exact (parse_args_fields _ _ _ _ _ _ Hparse). Qed.

Lemma last_option_wins_witness :
  stored_field reads_position 0 (-7)
    (last_arg "x" [mk_opt "x" "3"; mk_opt "d" "250"; mk_opt "x" "-7"]).
Proof.
  exact (proj1 (last_option_wins "xvisbell" Sample.strdup
                  [mk_opt "x" "3"; mk_opt "d" "250"; mk_opt "x" "-7"] []
                  (mk_config (Bell.mk (-7) 0 (-1) (-1) 250 None) false)
                  eq_refl)).
Defined.

(** ** Options that end the program *)

(** After options that were accepted: [--help] prints the usage text and
    nothing else and ends the program with status 0; an option character
    the [switch] has no case for prints the usage text and ends it with
    status 1, after a message with the character unless the character is
    ['?'] ([getopt_long] has reported the option itself then); a [-c] whose
    argument [strdup] cannot copy prints a message naming the argument and
    ends the program with status 1.  No display is opened in any of these
    cases. *)
Theorem options_that_end_the_program (argv0 : string)
  (strdup : string -> strdup_result) (pre rest : list getopt_item)
  (o : getopt_item) (tr : list action) (c : config) (X : xserver)
  (run : run_input) :
  parse_args argv0 strdup default_config pre = (tr, Parsed c) ->
  (opt o = zero ->
   main argv0 strdup (pre ++ o :: rest) X run
   = (print_usage argv0, Exited 0))
  /\ (recognised (opt o) = false ->
      main argv0 strdup (pre ++ o :: rest) X run
      = ((if Ascii.eqb (opt o) "?" then []
          else [Printf "Invalid option %c\n" [PChar (opt o)]])
           ++ print_usage argv0,
         Exited 1))
  /\ (forall errno : Z,
         opt o = "c"%char ->
         strdup (optarg o) = DupFailed errno ->
         exists more : list action,
           main argv0 strdup (pre ++ o :: rest) X run
           = (Printf "Error setting color to %s" [PStr (optarg o)] :: more,
              Exited 1)
           /\ Forall (fun a => is_printf a = true) more).
Proof.
  intros Hpre.
  assert (Hstop : forall tr' status,
             parse_option argv0 strdup c o = (tr', ParseExit status) ->
             main argv0 strdup (pre ++ o :: rest) X run
             = (tr', Exited status)).
  { intros tr' status Ho. unfold main.
    rewrite (parse_args_stops argv0 strdup pre _ _ _ _ _ rest _ Hpre Ho).
    reflexivity. }
  split; [ | split ].
  - intros Hopt. apply Hstop. unfold parse_option. cbv beta zeta.
    rewrite Hopt. reflexivity.
  - unfold recognised. intros Hrec. apply Hstop.
    unfold parse_option. cbv beta zeta.
    repeat match type of Hrec with
      | (_ || _)%bool = false =>
          apply orb_false_elim in Hrec;
          let H := fresh "Hch" in destruct Hrec as [Hrec H]; rewrite H
      end.
    rewrite Hrec. reflexivity.
  - intros errno Hopt Hdup.
    eexists. split.
    + apply Hstop. unfold parse_option. cbv beta zeta.
      rewrite Hopt. cbn [Ascii.eqb Bool.eqb andb zero]. rewrite Hdup.
      reflexivity.
    + destruct (errno =? 0); repeat constructor.
Qed.

Lemma options_that_end_the_program_witness :
  main "xvisbell" Sample.strdup
    ([mk_opt "w" "640"] ++ mk_opt "q" "" :: [mk_opt "f" ""])
    Sample.server Sample.idle
  = ([Printf "Invalid option %c\n" [PChar "q"];
      Printf usage_fmt [PStr "xvisbell"]],
     Exited 1).
Proof.
  exact (proj1 (proj2
    (options_that_end_the_program "xvisbell" Sample.strdup
       [mk_opt "w" "640"] [mk_opt "f" ""] (mk_opt "q" "") []
       (mk_config (Bell.mk 0 0 640 (-1) 100 None) false)
       Sample.server Sample.idle eq_refl)) eq_refl).
Defined.

(** ** What the run phase calls *)

Lemma update_timeout_and_hide_calls (now : timespec) (st : loop_state) :
  Forall (fun a => run_action a = true)
    (snd (update_timeout_and_hide now st)).
Proof.
  unfold update_timeout_and_hide.
  destruct (is_zero (timespec_diff now (end_time st))); repeat constructor.
Qed.

Lemma x11select_calls (timeout : timespec) (answers : list select_result) :
  Forall (fun a => run_action a = true) (fst (x11select timeout answers)).
Proof.
  induction answers as [| a rest IH]; cbn [x11select hd_error pselect].
  - destruct (timespec_valid timeout); cbn [EINVAL EINTR Z.eqb Pos.eqb];
      repeat constructor.
  - destruct (timespec_valid timeout).
    + destruct a as [n | errno]; [ repeat constructor | ].
      destruct (errno =? EINTR); [ | repeat constructor ].
      destruct (x11select timeout rest) as [tr r]. cbn [fst] in *.
      constructor; [ reflexivity | exact IH ].
    + cbn [EINVAL EINTR Z.eqb Pos.eqb]. repeat constructor.
Qed.

Lemma drain_events_calls (duration : timespec) (evs : list pending_event) :
  forall st : loop_state,
    Forall (fun a => run_action a = true)
      (snd (drain_events duration st evs)).
Proof.
  induction evs as [| ev rest IH]; intros st; cbn [drain_events].
  - constructor.
  - assert (Hev : Forall (fun a => run_action a = true)
                    (snd (handle_event duration st ev))).
    { unfold handle_event.
      destruct (negb (xkb_type ev =? XkbBellNotify)); repeat constructor. }
    destruct (handle_event duration st ev) as [st1 tr1].
    specialize (IH st1).
    destruct (drain_events duration st1 rest) as [st2 tr2].
    cbn [snd] in *. apply Forall_app. split; assumption.
Qed.

Lemma loop_iteration_calls (duration : timespec) (st : loop_state)
  (it : iteration) :
  Forall (fun a => run_action a = true)
    (fst (loop_iteration duration st it)).
Proof.
  unfold loop_iteration.
  assert (H1 : Forall (fun a => run_action a = true)
                 (snd (wait_timeout st (clock_before it)))).
  { unfold wait_timeout. destruct (visible st).
    - apply update_timeout_and_hide_calls.
    - constructor. }
  destruct (wait_timeout st (clock_before it)) as [[timeout st1] tr1].
  pose proof (x11select_calls timeout (select_answers it)) as H2.
  destruct (x11select timeout (select_answers it)) as [tr2 w].
  cbn [fst snd] in *.
  destruct w; try (apply Forall_app; split; assumption).
  assert (H3 : Forall (fun a => run_action a = true)
                 (snd (if visible st1
                       then update_timeout_and_hide (clock_after it) st1
                       else (timeout, st1, [])))).
  { destruct (visible st1).
    - apply update_timeout_and_hide_calls.
    - constructor. }
  destruct (if visible st1
            then update_timeout_and_hide (clock_after it) st1
            else (timeout, st1, [])) as [[t2 st2] tr3].
  pose proof (drain_events_calls duration (pending it) st2) as H4.
  destruct (drain_events duration st2 (pending it)) as [st3 tr4].
  cbn [fst snd] in *. repeat (apply Forall_app; split); assumption.
Qed.

Lemma main_loop_calls (duration : timespec) (script : list iteration) :
  forall st : loop_state,
    Forall (fun a => run_action a = true)
      (fst (fst (main_loop duration st script))).
Proof.
  induction script as [| it rest IH]; intros st; cbn [main_loop].
  - constructor.
  - pose proof (loop_iteration_calls duration st it) as Hit.
    destruct (loop_iteration duration st it) as [tr [st1 | st1 o]].
    + specialize (IH st1).
      destruct (main_loop duration st1 rest) as [[tr' st2] o].
      cbn [fst] in *. apply Forall_app. split; assumption.
    + exact Hit.
Qed.

Lemma flash_wait_calls (end_time : timespec) (clock : list timespec) :
  Forall (fun a => run_action a = true) (fst (flash_wait end_time clock))
  /\ (snd (flash_wait end_time clock) = Running
      \/ snd (flash_wait end_time clock) = Exited 0).
Proof.
  induction clock as [| now rest IH]; cbn [flash_wait].
  - split; [ constructor | left; reflexivity ].
  - destruct (is_zero (timespec_diff now end_time)).
    + split; [ repeat constructor | right; reflexivity ].
    + destruct (flash_wait end_time rest) as [tr o]. cbn [fst snd] in *.
      destruct IH as [Htr Ho]. split; [ | exact Ho ].
      repeat constructor. exact Htr.
Qed.

Lemma run_phase_calls (c : config) (run : run_input) :
  Forall (fun a => run_action a = true) (fst (run_phase c run)).
Proof.
  unfold run_phase. destruct (flash_once c).
  - unfold flash_once_and_exit.
    pose proof (flash_wait_calls
                  (add_duration (flash_start run)
                     (duration_of_ms (Bell.duration (bell c))))
                  (flash_clock run)) as [Htr _].
    destruct (flash_wait _ (flash_clock run)) as [tr o]. cbn [fst] in *.
    repeat constructor. exact Htr.
  - pose proof (main_loop_calls (duration_of_ms (Bell.duration (bell c)))
                  (iterations run) (initial_state (garbage run))) as Htr.
    destruct (main_loop _ (initial_state (garbage run)) (iterations run))
      as [[tr st] o].
    exact Htr.
Qed.

Lemma run_phase_outcome (c : config) (run : run_input) :
  snd (run_phase c run) = Exited 0 -> flash_once c = true.
Proof.
  unfold run_phase. destruct (flash_once c); [ reflexivity | ].
  pose proof (main_loop_exit (duration_of_ms (Bell.duration (bell c)))
                (iterations run) (initial_state (garbage run)) 0) as Hexit.
  destruct (main_loop _ (initial_state (garbage run)) (iterations run))
    as [[tr st] o].
  cbn [snd] in *. intros Ho. destruct (Hexit Ho) as [H01 _]. discriminate.
Qed.

(** ** Exit status and the window *)

Lemma existsb_weaken {A : Type} (f g : A -> bool) (l : list A) :
  (forall a, f a = true -> g a = true) ->
  existsb f l = true -> existsb g l = true.
Proof.
  intros Hfg. induction l as [| a l IH]; cbn [existsb]; [ auto | ].
  intros H. apply orb_true_iff in H. apply orb_true_iff.
  destruct H as [H | H]; [ left; apply Hfg, H | right; apply IH, H ].
Qed.

Lemma main_configured_outcome (c : config) (X : xserver) (run : run_input)
  (status : Z) :
  snd (main_configured c X run) = Exited status ->
  status = 1 \/ (status = 0 /\ flash_once c = true).
Proof.
  unfold main_configured.
  destruct (negb (display_opens X)); [ cbn; intros [= <-]; auto | ].
  destruct (negb (xkb_library_ok X)); [ cbn; intros [= <-]; auto | ].
  destruct (negb (xkb_extension_ok X)); [ cbn; intros [= <-]; auto | ].
  destruct (background_pixel X (Bell.color (bell c))) as [trc [pixel |]];
    [ | cbn; intros [= <-]; auto ].
  pose proof (run_phase_outcome c run) as Hzero.
  assert (Hflash : snd (run_phase c run) = Exited status ->
                   status = 0 \/ status = 1).
  { unfold run_phase. destruct (flash_once c).
    - unfold flash_once_and_exit.
      destruct (flash_wait_calls
                  (add_duration (flash_start run)
                     (duration_of_ms (Bell.duration (bell c))))
                  (flash_clock run)) as [_ Ho].
      destruct (flash_wait _ (flash_clock run)) as [tr o]. cbn [snd] in *.
      intros ->. destruct Ho as [Ho | Ho]; [ discriminate | ].
      injection Ho as ->. auto.
    - pose proof (main_loop_exit (duration_of_ms (Bell.duration (bell c)))
                    (iterations run) (initial_state (garbage run)) status)
        as Hexit.
      destruct (main_loop _ (initial_state (garbage run)) (iterations run))
        as [[tr st] o].
      cbn [snd] in *. intros Ho. destruct (Hexit Ho) as [-> _]. auto. }
  destruct (run_phase c run) as [trr o]. cbn [snd] in *. intros ->.
  destruct (Hflash eq_refl) as [-> | ->]; auto.
Qed.

(** [main] ends with status 0 or 1 only, and with status 0 only when the
    command line has [--help] or [-f]: in continuous mode the program never
    ends with success by itself. *)
Theorem success_only_by_help_or_flash (argv0 : string)
  (strdup : string -> strdup_result) (opts : list getopt_item)
  (X : xserver) (run : run_input) (status : Z) :
  snd (main argv0 strdup opts X run) = Exited status ->
  (status = 0 \/ status = 1)
  /\ (status = 0 -> existsb ends_with_success opts = true).
Proof.
  unfold main.
  destruct (parse_args argv0 strdup default_config opts) as [tr [c | st]]
    eqn:Hparse.
  - pose proof (main_configured_outcome c X run status) as Hout.
    destruct (main_configured c X run) as [tr' o]. cbn [snd] in *.
    intros Ho. specialize (Hout Ho).
    split; [ destruct Hout as [-> | [-> _]]; auto | ].
    intros ->. destruct Hout as [H | [_ Hflash]]; [ discriminate | ].
    destruct (parse_args_fields _ _ _ _ _ _ Hparse) as (_ & _ & _ & _ & Hf).
    rewrite Hflash in Hf. cbn [flash_once default_config orb] in Hf.
    apply (existsb_weaken is_flash_option); [ | congruence ].
    intros o' Ho'. unfold ends_with_success, is_flash_option in *.
    rewrite Ho'. apply orb_true_r.
  - cbn [snd]. intros [= ->].
    destruct (parse_args_exit _ _ _ _ _ _ Hparse) as (Hst & Hzero).
    split; [ exact Hst | ]. intros H0. destruct (Hzero H0) as (Hex & _).
    apply (existsb_weaken (fun o => Ascii.eqb (opt o) zero)); [ | exact Hex ].
    intros o' Ho'. unfold ends_with_success. rewrite Ho'. reflexivity.
Qed.

Lemma success_only_by_help_or_flash_witness :
  (0 = 0 \/ 0 = 1)
  /\ (0 = 0 ->
      existsb ends_with_success [mk_opt "d" "20"; mk_opt "f" ""] = true).
Proof.
  exact (success_only_by_help_or_flash "xvisbell" Sample.strdup
           [mk_opt "d" "20"; mk_opt "f" ""] Sample.server
           (mk_run (mk_timespec 0 0) (mk_timespec 5 0) [mk_timespec 5 20000000] [])
           0 eq_refl).
Defined.

Lemma printf_leaves_window (tr : list action) :
  Forall (fun a => is_printf a = true) tr ->
  Forall (fun a => touches_window a = false) tr.
Proof.
  apply Forall_impl. intros a. destruct a; cbn; congruence.
Qed.

Lemma run_action_creates_nothing (tr : list action) :
  Forall (fun a => run_action a = true) tr ->
  Forall (fun a => is_create a = false) tr.
Proof.
  apply Forall_impl. intros a. destruct a; cbn; congruence.
Qed.

(** In every run of [main] the window is created at most once, and nothing
    maps or unmaps it before it exists: either the run never touches a
    window (the program stopped during parsing or set-up), or its trace is
    a set-up part without any window call, the one [XCreateWindow], and a
    rest that creates no further window. *)
Theorem window_created_once (argv0 : string)
  (strdup : string -> strdup_result) (opts : list getopt_item)
  (X : xserver) (run : run_input) :
  Forall (fun a => touches_window a = false)
    (fst (main argv0 strdup opts X run))
  \/ exists (before after : list action) (x y w h pixel : Z),
       fst (main argv0 strdup opts X run)
       = before ++ XCreateWindow x y w h pixel :: after
       /\ Forall (fun a => touches_window a = false) before
       /\ Forall (fun a => is_create a = false) after.
Proof.
  unfold main.
  pose proof (parse_args_prints argv0 strdup opts default_config) as Hprint.
  apply printf_leaves_window in Hprint.
  destruct (parse_args argv0 strdup default_config opts) as [tr [c | st]];
    cbn [fst] in *; [ | left; exact Hprint ].
  unfold main_configured.
  destruct (negb (display_opens X));
    [ left; apply Forall_app; split; [ exact Hprint | repeat constructor ] | ].
  destruct (negb (xkb_library_ok X));
    [ left; apply Forall_app; split; [ exact Hprint | repeat constructor ] | ].
  destruct (negb (xkb_extension_ok X));
    [ left; apply Forall_app; split; [ exact Hprint | repeat constructor ] | ].
  assert (Hcolor : Forall (fun a => touches_window a = false)
                     (fst (background_pixel X (Bell.color (bell c))))).
  { unfold background_pixel. destruct (Bell.color (bell c)) as [name |];
      [ | constructor ].
    destruct (strncmp name "white" 5 =? 0); [ constructor | ].
    destruct (color_table X name); repeat constructor. }
  destruct (background_pixel X (Bell.color (bell c))) as [trc [pixel |]];
    cbn [fst] in Hcolor.
  - pose proof (run_action_creates_nothing _ (run_phase_calls c run)) as Hrun.
    destruct (run_phase c run) as [trr o]. cbn [fst] in *.
    right. unfold create_window.
    exists (tr ++ XOpenDisplay :: xkb_setup ++ trc), trr.
    do 5 eexists. split; [ | split ].
    + rewrite <- app_assoc. cbn [app]. rewrite <- app_assoc. reflexivity.
    + apply Forall_app. split; [ exact Hprint | ].
      constructor; [ reflexivity | ].
      apply Forall_app. split; [ repeat constructor | exact Hcolor ].
    + exact Hrun.
  - left. cbn [fst]. apply Forall_app. split; [ exact Hprint | ].
    constructor; [ reflexivity | ].
    apply Forall_app. split; [ repeat constructor | exact Hcolor ].
Qed.

(** ** The duration *)

(** The duration [main] computes from the milliseconds of [-d] is exact
    and in normal form: for every value of an [unsigned long] it denotes
    that many milliseconds, with the nanoseconds below one second. *)
Theorem duration_of_ms_exact (ms : Z) :
  0 <= ms <= CInt.ULONG_MAX ->
  nanos (duration_of_ms ms) = ms * 1000000
  /\ normalized (duration_of_ms ms)
  /\ 0 <= tv_sec (duration_of_ms ms) <= CInt.LONG_MAX.
Proof.
  unfold CInt.ULONG_MAX, CInt.LONG_MAX. intros Hms.
  unfold nanos, normalized, duration_of_ms, NSEC_PER_SEC.
  cbn [tv_sec tv_nsec].
  pose proof (Z.div_mod ms 1000 ltac:(lia)) as Hdm.
  pose proof (Z.mod_pos_bound ms 1000 ltac:(lia)) as Hmod.
  assert (Hdiv : 0 <= ms / 1000 <= ms) by
    (split; [ apply Z.div_pos; lia | apply Z.div_le_upper_bound; lia ]).
  repeat split; lia.
Qed.

Lemma duration_of_ms_exact_witness :
  nanos (duration_of_ms 1500) = 1500 * 1000000
  /\ normalized (duration_of_ms 1500)
  /\ 0 <= tv_sec (duration_of_ms 1500) <= CInt.LONG_MAX.
Proof.
  apply (duration_of_ms_exact 1500). unfold CInt.ULONG_MAX. lia.
Defined.

(** With a duration below one second (the default of 100 ms is one), the
    timeout computed after a bell is always one [pselect] accepts: for a
    bell handled at [t1] and any clock reading [now] not before it, the
    remaining wait to the stored deadline is a valid [timespec]. *)
Theorem short_duration_gives_valid_timeout (ms : Z) (t1 now : timespec) :
  0 <= ms < 1000 ->
  normalized t1 ->
  normalized now ->
  nanos t1 <= nanos now ->
  timespec_valid
    (timespec_diff now (add_duration t1 (duration_of_ms ms))) = true.
Proof.
  intros Hms Ht1 Hnow Hmono.
  assert (Hsec : ms / 1000 = 0) by (apply Z.div_small; lia).
  assert (Hmod : ms mod 1000 = ms) by (apply Z.mod_small; lia).
  unfold timespec_valid, timespec_diff, add_duration, duration_of_ms,
    normalized, nanos, NSEC_PER_SEC in *.
  cbn [tv_sec tv_nsec] in *. rewrite Hsec, Hmod.
  zcompare; cbn [tv_sec tv_nsec orb andb] in *; zcompare;
    cbn [orb andb]; try reflexivity; lia.
Qed.

Lemma short_duration_gives_valid_timeout_witness :
  timespec_valid
    (timespec_diff (mk_timespec 11 2000)
       (add_duration (mk_timespec 10 999999000) (duration_of_ms 100)))
  = true.
Proof.
  apply (short_duration_gives_valid_timeout 100 (mk_timespec 10 999999000)
           (mk_timespec 11 2000));
    unfold normalized, nanos, NSEC_PER_SEC; cbn [tv_sec tv_nsec]; lia.
Defined.

(** ** One-shot mode: how long and how often *)

(** A wait that is not zero is exactly the time to the deadline, also for
    a deadline whose nanoseconds have passed one second. *)
Lemma timespec_diff_value (now deadline : timespec) :
  normalized now ->
  0 <= tv_nsec deadline ->
  is_zero (timespec_diff now deadline) = false ->
  nanos (timespec_diff now deadline) = nanos deadline - nanos now.
Proof.
  unfold normalized, nanos, is_zero, NSEC_PER_SEC, timespec_diff.
  intros Hnow Hnn.
  zcompare; cbn [tv_sec tv_nsec orb andb] in *; zcompare;
    cbn [tv_sec tv_nsec orb andb] in *; try discriminate; intros _; lia.
Qed.

Lemma zero_wait_means_passed (now deadline : timespec) :
  normalized now ->
  normalized deadline ->
  is_zero (timespec_diff now deadline) = true ->
  nanos deadline <= nanos now.
Proof.
  intros Hnow Hdl Hzero.
  destruct (Z_le_gt_dec (nanos deadline) (nanos now)) as [Hle | Hgt];
    [ exact Hle | ].
  destruct Hdl as [Hnn Hlt].
  destruct (timespec_diff_exact now deadline Hnow Hnn Hlt) as (_ & _ & Hz);
    [ lia | congruence ].
Qed.

Lemma flash_wait_exited (end_time : timespec) (clock : list timespec) :
  snd (flash_wait end_time clock) = Exited 0 ->
  exists (early : list timespec) (now : timespec) (rest : list timespec),
    clock = early ++ now :: rest
    /\ is_zero (timespec_diff now end_time) = true
    /\ fst (flash_wait end_time clock)
       = sleeps end_time early ++ [ClockGettime now; XUnmapWindow].
Proof.
  induction clock as [| t clock IH]; cbn [flash_wait]; [ discriminate | ].
  destruct (is_zero (timespec_diff t end_time)) eqn:Hz.
  - intros _. exists [], t, clock. auto.
  - destruct (flash_wait end_time clock) as [tr o]. cbn [fst snd] in *.
    intros Ho. destruct (IH Ho) as (early & now & rest & -> & Hnow & ->).
    exists (t :: early), now, rest. auto.
Qed.

(** The remark in [flash_once_and_exit] that its loop should make two
    iterations at most: when the sleep of the first iteration lasts as long
    as it was asked to (the second reading is not before the first plus
    the timeout), the second iteration unmaps the window and exits with
    status 0, so [nanosleep] is called once at most. *)
Theorem one_shot_two_iterations (duration start now1 now2 : timespec)
  (rest : list timespec) :
  normalized now1 ->
  normalized now2 ->
  0 <= tv_nsec start + tv_nsec duration ->
  nanos now1 + nanos (timespec_diff now1 (add_duration start duration))
  <= nanos now2 ->
  snd (flash_once_and_exit duration start (now1 :: now2 :: rest)) = Exited 0
  /\ (count is_sleep
        (fst (flash_once_and_exit duration start (now1 :: now2 :: rest)))
      <= 1)%nat.
Proof.
  intros Hnow1 Hnow2 Hsum Hslept.
  assert (Hnn : 0 <= tv_nsec (add_duration start duration)) by exact Hsum.
  unfold flash_once_and_exit. cbn [flash_wait].
  destruct (is_zero (timespec_diff now1 (add_duration start duration)))
    eqn:Hz1.
  - cbn. auto.
  - rewrite (timespec_diff_value _ _ Hnow1 Hnn Hz1) in Hslept.
    rewrite (timespec_diff_passed now2 _ Hnow2 Hnn) by lia.
    cbn. auto.
Qed.

Lemma one_shot_two_iterations_witness :
  snd (flash_once_and_exit (duration_of_ms 100) (mk_timespec 10 950000000)
         (mk_timespec 10 950002000 :: mk_timespec 11 50000500 :: []))
  = Exited 0.
Proof.
  refine (proj1 (one_shot_two_iterations (duration_of_ms 100)
                   (mk_timespec 10 950000000) (mk_timespec 10 950002000)
                   (mk_timespec 11 50000500) [] _ _ _ _));
    unfold normalized, nanos, NSEC_PER_SEC; cbn; lia.
Defined.

(** When the nanoseconds of the first reading and of the duration add up
    to less than one second, one-shot mode keeps its promise: if the
    program exits with status 0, the window was mapped first, every
    earlier reading was followed by a sleep, and the reading after which
    the window was unmapped is not before start + duration. *)
Theorem one_shot_not_before_deadline (duration start : timespec)
  (clock : list timespec) :
  Forall normalized clock ->
  0 <= tv_nsec start + tv_nsec duration < NSEC_PER_SEC ->
  snd (flash_once_and_exit duration start clock) = Exited 0 ->
  exists (early : list timespec) (now : timespec) (rest : list timespec),
    clock = early ++ now :: rest
    /\ nanos start + nanos duration <= nanos now
    /\ fst (flash_once_and_exit duration start clock)
       = ClockGettime start
           :: Set_end_time (add_duration start duration)
           :: XMapRaised :: XFlush
           :: sleeps (add_duration start duration) early
           ++ [ClockGettime now; XUnmapWindow].
Proof.
  intros Hclock Hsum. unfold flash_once_and_exit.
  pose proof (flash_wait_exited (add_duration start duration) clock) as Hex.
  destruct (flash_wait (add_duration start duration) clock) as [tr o].
  cbn [fst snd] in *. intros Ho.
  destruct (Hex Ho) as (early & now & rest & -> & Hzero & ->).
  exists early, now, rest. repeat split.
  assert (Hnow : normalized now).
  { rewrite Forall_forall in Hclock. apply Hclock.
    apply in_or_app. right. left. reflexivity. }
  assert (Hend : normalized (add_duration start duration)) by exact Hsum.
  pose proof (zero_wait_means_passed now _ Hnow Hend Hzero) as Hpassed.
  unfold nanos, add_duration in *. cbn [tv_sec tv_nsec] in *. lia.
Qed.

Lemma one_shot_not_before_deadline_witness :
  exists (early : list timespec) (now : timespec) (rest : list timespec),
    [mk_timespec 10 500001000; mk_timespec 10 600002000]
    = early ++ now :: rest
    /\ nanos (mk_timespec 10 500000000) + nanos (duration_of_ms 100)
       <= nanos now
    /\ fst (flash_once_and_exit (duration_of_ms 100)
              (mk_timespec 10 500000000)
              [mk_timespec 10 500001000; mk_timespec 10 600002000])
       = ClockGettime (mk_timespec 10 500000000)
           :: Set_end_time (add_duration (mk_timespec 10 500000000)
                              (duration_of_ms 100))
           :: XMapRaised :: XFlush
           :: sleeps (add_duration (mk_timespec 10 500000000)
                        (duration_of_ms 100)) early
           ++ [ClockGettime now; XUnmapWindow].
Proof.
  refine (one_shot_not_before_deadline (duration_of_ms 100)
            (mk_timespec 10 500000000)
            [mk_timespec 10 500001000; mk_timespec 10 600002000] _ _ _).
  - repeat constructor; unfold NSEC_PER_SEC; cbn; lia.
  - unfold NSEC_PER_SEC. cbn. lia.
  - reflexivity.
Defined.

(** ** The texts the parsers accept *)

Lemma skip_spaces_split (s : string) :
  exists sp : string,
    s = String.append sp (skip_spaces s)
    /\ string_forall isspace sp = true.
Proof.
  induction s as [| c r IH]; [ exists ""; auto | ].
  cbn [skip_spaces]. destruct (isspace c) eqn:Hc.
  - destruct IH as (sp & Hr & Hsp). exists (String c sp).
    cbn [String.append string_forall]. rewrite Hc, Hsp, <- Hr. auto.
  - exists "". auto.
Qed.

Lemma take_sign_split (s s' : string) (neg : bool) :
  take_sign s = (neg, s') ->
  exists sg : string, s = String.append sg s' /\ sign_text sg neg.
Proof.
  destruct s as [| c r]; cbn [take_sign].
  - intros [= <- <-]. exists "". split; [ reflexivity | constructor ].
  - destruct (Ascii.eqb_spec c "-") as [-> | _].
    + intros [= <- <-]. exists "-". split; [ reflexivity | constructor ].
    + destruct (Ascii.eqb_spec c "+") as [-> | _]; intros [= <- <-].
      * exists "+". split; [ reflexivity | constructor ].
      * exists "". split; [ reflexivity | constructor ].
Qed.

Lemma take_digits_split (s : string) :
  forall (acc v : Z) (n : nat) (rest : string),
    take_digits s acc = (v, n, rest) ->
    exists ds : string,
      s = String.append ds rest
      /\ string_forall is_digit ds = true
      /\ (n = O <-> ds = "")
      /\ v = horner acc ds.
Proof.
  induction s as [| c r IH]; intros acc v n rest; cbn [take_digits].
  - intros [= <- <- <-]. exists "". repeat split; auto.
  - destruct (digit_of c) as [d |] eqn:Hd.
    + destruct (take_digits r (acc * 10 + d)) as [[v' n'] rest'] eqn:Hr.
      intros [= <- <- <-].
      destruct (IH _ _ _ _ Hr) as (ds & -> & Hds & _ & ->).
      exists (String c ds). cbn [String.append string_forall horner].
      unfold is_digit at 1. rewrite Hd, Hds. repeat split; discriminate.
    + intros [= <- <- <-]. exists "". repeat split; auto.
Qed.

Lemma take_digits_all (ds : string) :
  forall acc : Z,
    string_forall is_digit ds = true ->
    take_digits ds acc = (horner acc ds, String.length ds, "").
Proof.
  induction ds as [| c r IH]; intros acc; cbn [string_forall]; [ auto | ].
  unfold is_digit at 1. intros H. apply andb_prop in H. destruct H as [Hc Hr].
  cbn [take_digits horner String.length].
  destruct (digit_of c) as [d |]; [ | discriminate ].
  rewrite (IH _ Hr). reflexivity.
Qed.

(** A run of digits after white space and a sign is where the conversions
    start reading. *)
Lemma skip_spaces_numeral (sp sg ds : string) (neg : bool) :
  string_forall isspace sp = true ->
  sign_text sg neg ->
  string_forall is_digit ds = true ->
  ds <> "" ->
  take_sign (skip_spaces (String.append sp (String.append sg ds)))
  = (neg, ds).
Proof.
  intros Hsp Hsg Hds Hne.
  assert (Hskip : skip_spaces (String.append sp (String.append sg ds))
                  = String.append sg ds).
  { induction sp as [| c r IH]; cbn [String.append string_forall] in *.
    - destruct Hsg; cbn [String.append]; try reflexivity.
      destruct ds as [| c r]; [ congruence | ].
      cbn [skip_spaces string_forall] in *. apply andb_prop in Hds.
      destruct Hds as [Hc _]. unfold is_digit in Hc.
      destruct (isspace c) eqn:Hspace; [ | reflexivity ].
      rewrite (isspace_not_digit c Hspace) in Hc. discriminate.
    - apply andb_prop in Hsp. destruct Hsp as [Hc Hr].
      cbn [skip_spaces]. rewrite Hc. apply IH, Hr. }
  rewrite Hskip. destruct Hsg; cbn [String.append take_sign]; try reflexivity.
  destruct ds as [| c r]; [ congruence | ].
  cbn [take_sign string_forall] in *. apply andb_prop in Hds.
  destruct Hds as [Hc _]. unfold is_digit in Hc.
  destruct (Ascii.eqb_spec c "-") as [-> | _]; [ discriminate | ].
  destruct (Ascii.eqb_spec c "+") as [-> | _]; [ discriminate | reflexivity ].
Qed.

Lemma numeral_split (s s' rest : string) (neg : bool) (v : Z) (n : nat) :
  take_sign (skip_spaces s) = (neg, s') ->
  take_digits s' 0 = (v, S n, rest) ->
  rest = "" ->
  numeral s neg v.
Proof.
  intros Hsign Hdigits ->.
  destruct (skip_spaces_split s) as (sp & Hs & Hsp).
  destruct (take_sign_split _ _ _ Hsign) as (sg & Hs1 & Hsg).
  destruct (take_digits_split _ _ _ _ _ Hdigits) as (ds & Hs' & Hds & Hn & ->).
  rewrite Hs, Hs1, Hs'.
  assert (Hnil : forall t : string, String.append t "" = t).
  { induction t as [| c t IH]; cbn; [ | rewrite IH ]; reflexivity. }
  rewrite Hnil. apply numeral_intro; try assumption.
  intros ->. destruct Hn as [_ Hn]. discriminate (Hn eq_refl).
Qed.

Lemma digit_of_bounds (c : ascii) (d : Z) :
  digit_of c = Some d -> 0 <= d <= 9.
Proof.
  unfold digit_of.
  destruct (Z.leb_spec 48 (Z.of_N (N_of_ascii c))); cbn [andb];
    [ | discriminate ].
  destruct (Z.leb_spec (Z.of_N (N_of_ascii c)) 57); [ | discriminate ].
  intros [= <-]. lia.
Qed.

Lemma horner_nonneg (s : string) :
  forall acc : Z, 0 <= acc -> 0 <= horner acc s.
Proof.
  induction s as [| c r IH]; intros acc Hacc; cbn [horner]; [ exact Hacc | ].
  apply IH. destruct (digit_of c) as [d |] eqn:Hd; [ | lia ].
  pose proof (digit_of_bounds c d Hd). lia.
Qed.

(** [parse_long] accepts exactly the numerals whose value is a [long], and
    the empty text, which it takes for 0: white space may come first, one
    sign may follow it, the digits must be there and must end the text.
    The value stored is the signed value of the digits. *)
Theorem parse_long_accepts_numerals (s : string) (v : Z) :
  parse_long s = Some v
  <-> (s = "" /\ v = 0)
      \/ exists (neg : bool) (m : Z),
           numeral s neg m
           /\ v = (if neg then - m else m)
           /\ CInt.LONG_MIN <= v <= CInt.LONG_MAX.
Proof.
  split.
  - unfold parse_long, strtol.
    destruct (take_sign (skip_spaces s)) as [neg s'] eqn:Hsign.
    destruct (take_digits s' 0) as [[m n] rest] eqn:Hdigits.
    destruct n as [| n].
    + cbn [andb]. destruct s; cbn [at_nul negb]; [ | discriminate ].
      intros [= <-]. left. auto.
    + destruct (Z.gtb_spec (if neg then - m else m) CInt.LONG_MAX).
      { cbn [andb orb]. rewrite Z.eqb_refl. discriminate. }
      destruct (Z.ltb_spec (if neg then - m else m) CInt.LONG_MIN).
      { cbn [andb orb]. rewrite Z.eqb_refl, orb_true_r. discriminate. }
      cbn [andb]. destruct rest; cbn [at_nul negb]; [ | discriminate ].
      intros [= <-]. right. exists neg, m.
      split; [ exact (numeral_split _ _ _ _ _ _ Hsign Hdigits eq_refl) | ].
      split; [ reflexivity | lia ].
  - intros [[-> ->] | (neg & m & Hnum & -> & Hrange)]; [ reflexivity | ].
    destruct Hnum as [sp sg ds neg Hsp Hsg Hds Hne].
    unfold parse_long, strtol.
    rewrite (skip_spaces_numeral sp sg ds neg Hsp Hsg Hds Hne).
    rewrite (take_digits_all ds 0 Hds). fold (decimal ds).
    destruct ds as [| c r]; [ congruence | ]. cbn [String.length].
    destruct (Z.gtb_spec (if neg then - decimal (String c r)
                          else decimal (String c r)) CInt.LONG_MAX);
      [ lia | ].
    destruct (Z.ltb_spec (if neg then - decimal (String c r)
                          else decimal (String c r)) CInt.LONG_MIN);
      [ lia | ].
    reflexivity.
Qed.

(** [parse_ulong] accepts exactly the numerals whose magnitude is an
    [unsigned long], and the empty text, which it takes for 0.  A numeral
    with a minus sign is accepted like the others: the value stored is
    [2^64] minus its magnitude (0 for [-0]), so a negative duration
    becomes a very long one instead of an error. *)
Theorem parse_ulong_accepts_numerals (s : string) (v : Z) :
  parse_ulong s = Some v
  <-> (s = "" /\ v = 0)
      \/ exists (neg : bool) (m : Z),
           numeral s neg m
           /\ m <= CInt.ULONG_MAX
           /\ v = (if neg then (- m) mod 2 ^ 64 else m).
Proof.
  assert (Hkeep : forall r : Z,
             0 <= r <= CInt.ULONG_MAX ->
             CInt.to_ulong (CInt.to_long r) = r).
  { intros r Hr. rewrite CIntFacts.to_ulong_to_long.
    unfold CInt.to_ulong, CInt.to_unsigned, CInt.ULONG_MAX in *.
    apply Z.mod_small. change (2 ^ 64) with 18446744073709551616. lia. }
  assert (Hwrap : forall m : Z, 0 <= (- m) mod 2 ^ 64 <= CInt.ULONG_MAX).
  { intros m. unfold CInt.ULONG_MAX.
    pose proof (Z.mod_pos_bound (- m) (2 ^ 64) ltac:(reflexivity)) as Hb.
    change (2 ^ 64) with 18446744073709551616 in *. lia. }
  split.
  - unfold parse_ulong, strtoul.
    destruct (take_sign (skip_spaces s)) as [neg s'] eqn:Hsign.
    destruct (take_digits s' 0) as [[m n] rest] eqn:Hdigits.
    destruct n as [| n].
    + cbn [andb]. destruct s; cbn [at_nul negb]; [ | discriminate ].
      intros [= <-]. left. auto.
    + destruct (Z.gtb_spec m CInt.ULONG_MAX) as [Hbig | Hfits].
      { cbn [andb orb]. discriminate. }
      cbn [andb]. destruct rest; cbn [at_nul negb]; [ | discriminate ].
      pose proof (numeral_split _ _ _ _ _ _ Hsign Hdigits eq_refl) as Hnum.
      assert (Hm : 0 <= m).
      { destruct (take_digits_split _ _ _ _ _ Hdigits) as (ds & _ & _ & _ & ->).
        apply horner_nonneg. lia. }
      intros [= <-]. right. exists neg, m.
      split; [ exact Hnum | split; [ exact Hfits | ] ].
      destruct neg.
      * unfold CInt.to_ulong at 2, CInt.to_unsigned. apply Hkeep, Hwrap.
      * apply Hkeep. lia.
  - intros [[-> ->] | (neg & m & Hnum & Hfits & ->)]; [ reflexivity | ].
    destruct Hnum as [sp sg ds neg Hsp Hsg Hds Hne].
    unfold parse_ulong, strtoul.
    rewrite (skip_spaces_numeral sp sg ds neg Hsp Hsg Hds Hne).
    rewrite (take_digits_all ds 0 Hds). fold (decimal ds).
    assert (Hm : 0 <= decimal ds) by (apply horner_nonneg; lia).
    destruct ds as [| c r]; [ congruence | ]. cbn [String.length].
    destruct (Z.gtb_spec (decimal (String c r)) CInt.ULONG_MAX); [ lia | ].
    cbn [andb at_nul negb]. f_equal.
    destruct neg.
    + unfold CInt.to_ulong at 2, CInt.to_unsigned. apply Hkeep, Hwrap.
    + apply Hkeep. lia.
Qed.

(** ** The replacement of [clock_gettime] *)

(** Where [xvisbell.c] supplies [clock_gettime] itself, a successful
    reading is a time stamp in normal form that denotes the instant
    [gettimeofday] gave, to the microsecond; a failed one returns the error
    and leaves the caller's [timespec] as it was. *)
Theorem clock_gettime_reading (rv : Z) (now : Timeval.t) (t : timespec) :
  Timeval.normalized now ->
  (rv = 0 ->
   fst (clock_gettime rv now t) = 0
   /\ normalized (snd (clock_gettime rv now t))
   /\ nanos (snd (clock_gettime rv now t)) = Timeval.micros now * 1000)
  /\ (rv <> 0 -> clock_gettime rv now t = (rv, t)).
Proof.
  unfold Timeval.normalized, Timeval.USEC_PER_SEC, clock_gettime.
  intros Hnow. split.
  - intros ->. cbn [Z.eqb negb fst snd].
    unfold normalized, nanos, Timeval.micros, NSEC_PER_SEC,
      Timeval.USEC_PER_SEC.
    cbn [tv_sec tv_nsec]. repeat split; lia.
  - intros Hrv. destruct (Z.eqb_spec rv 0); [ contradiction | reflexivity ].
Qed.

Lemma clock_gettime_reading_witness :
  fst (clock_gettime 0 (Timeval.mk 10 250000) (mk_timespec 0 0)) = 0
  /\ normalized
       (snd (clock_gettime 0 (Timeval.mk 10 250000) (mk_timespec 0 0)))
  /\ nanos (snd (clock_gettime 0 (Timeval.mk 10 250000) (mk_timespec 0 0)))
     = Timeval.micros (Timeval.mk 10 250000) * 1000.
Proof.
  refine (proj1 (clock_gettime_reading 0 (Timeval.mk 10 250000)
                   (mk_timespec 0 0) _) eq_refl).
  unfold Timeval.normalized, Timeval.USEC_PER_SEC. cbn. lia.
Defined.

(** ** [xvisbell.cpp]: the arithmetic of its deadline *)

Module CppFacts.

Import Cpp.

Ltac unfold_timeval :=
  unfold lt, sub, add_assign, window_timeout, Timeval.timercmp_lt,
    Timeval.timersub, Timeval.timeradd, Timeval.valid, Timeval.normalized,
    Timeval.micros, Timeval.USEC_PER_SEC in *.

Ltac timeval_cases :=
  repeat match goal with
    | |- context [?a >=? ?b] => destruct (Z.geb_spec a b)
    | |- context [?a <? ?b] => destruct (Z.ltb_spec a b)
    | |- context [?a <=? ?b] => destruct (Z.leb_spec a b)
    | |- context [?a =? ?b] => destruct (Z.eqb_spec a b)
    end;
  cbn [Timeval.tv_sec Timeval.tv_usec andb orb] in *.

Lemma lt_micros (a b : Timeval.t) :
  Timeval.normalized a ->
  Timeval.normalized b ->
  (lt a b = true <-> Timeval.micros a < Timeval.micros b).
Proof.
  unfold_timeval. intros Ha Hb.
  timeval_cases; split; intros Hcmp; try reflexivity; try discriminate; lia.
Qed.

Lemma sub_micros (a b : Timeval.t) :
  Timeval.normalized a ->
  Timeval.normalized b ->
  lt a b = false ->
  Timeval.valid (sub a b) = true
  /\ Timeval.micros (sub a b) = Timeval.micros a - Timeval.micros b.
Proof.
  intros Ha Hb Hlt.
  assert (Hge : Timeval.micros b <= Timeval.micros a).
  { destruct (Z_le_gt_dec (Timeval.micros b) (Timeval.micros a)) as [H | H];
      [ exact H | ].
    apply Z.gt_lt, (lt_micros a b Ha Hb) in H. congruence. }
  clear Hlt. unfold_timeval.
  timeval_cases; timeval_cases; split; try reflexivity; lia.
Qed.

Lemma add_micros (a : Timeval.t) :
  Timeval.normalized a ->
  Timeval.normalized (add_assign a window_timeout)
  /\ Timeval.micros (add_assign a window_timeout)
     = Timeval.micros a + 100000.
Proof.
  unfold_timeval. cbn [Timeval.tv_sec Timeval.tv_usec]. intros Ha.
  timeval_cases; split; lia.
Qed.

End CppFacts.

(** In [xvisbell.cpp] the deadline of a bell handled at [now] is in normal
    form and denotes [now] + 100 ms.  For a reading [cur], the deadline
    compares as earlier exactly when it is earlier, which is when the
    window is hidden: at the very instant of the deadline it is not.
    Otherwise the timeout computed for [select] is a valid [timeval] that
    denotes exactly the time to the deadline. *)
Theorem cpp_deadline_arithmetic (now cur : Timeval.t) :
  Timeval.normalized now ->
  Timeval.normalized cur ->
  Timeval.normalized (Cpp.add_assign now Cpp.window_timeout)
  /\ Timeval.micros (Cpp.add_assign now Cpp.window_timeout)
     = Timeval.micros now + 100000
  /\ (Cpp.lt (Cpp.add_assign now Cpp.window_timeout) cur = true
      <-> Timeval.micros now + 100000 < Timeval.micros cur)
  /\ (Cpp.lt (Cpp.add_assign now Cpp.window_timeout) cur = false ->
      Timeval.valid (Cpp.sub (Cpp.add_assign now Cpp.window_timeout) cur)
      = true
      /\ Timeval.micros
           (Cpp.sub (Cpp.add_assign now Cpp.window_timeout) cur)
         = Timeval.micros now + 100000 - Timeval.micros cur).
Proof.
  intros Hnow Hcur.
  destruct (CppFacts.add_micros now Hnow) as [Hnorm Hsum].
  split; [ exact Hnorm | split; [ exact Hsum | split ] ].
  - rewrite <- Hsum. apply CppFacts.lt_micros; assumption.
  - intros Hlt. rewrite <- Hsum. apply CppFacts.sub_micros; assumption.
Qed.

Lemma cpp_deadline_arithmetic_witness :
  Timeval.micros (Cpp.add_assign (Timeval.mk 10 950000) Cpp.window_timeout)
  = Timeval.micros (Timeval.mk 10 950000) + 100000.
Proof.
  refine (proj1 (proj2
    (cpp_deadline_arithmetic (Timeval.mk 10 950000) (Timeval.mk 11 0) _ _)));
    unfold Timeval.normalized, Timeval.USEC_PER_SEC; cbn; lia.
Defined.

(** [long_str_to_int] of [xvisbell.cpp] accepts a text exactly when
    [parse_long] of [xvisbell.c] accepts it with a value in the range of
    [int], and stores the same value. *)
Theorem long_str_to_int_is_parse_long (s : string) (v : Z) :
  Cpp.long_str_to_int s = Some v
  <-> parse_long s = Some v /\ CInt.INT_MIN <= v <= CInt.INT_MAX.
Proof.
  unfold Cpp.long_str_to_int, parse_long.
  destruct (strtol s) as [[l end_] erange].
  destruct (erange && ((l =? CInt.LONG_MAX) || (l =? CInt.LONG_MIN)));
    [ split; [ discriminate | intros [H _]; discriminate ] | ].
  destruct (Z.gtb_spec l CInt.INT_MAX) as [Hbig | Hmax]; cbn [orb].
  - split; [ discriminate | ].
    destruct (negb (at_nul end_)); [ intros [H _]; discriminate | ].
    intros [[= <-] Hrange]. lia.
  - destruct (Z.ltb_spec l CInt.INT_MIN) as [Hsmall | Hmin].
    + split; [ discriminate | ].
      destruct (negb (at_nul end_)); [ intros [H _]; discriminate | ].
      intros [[= <-] Hrange]. lia.
    + destruct (negb (at_nul end_));
        [ split; [ discriminate | intros [H _]; discriminate ] | ].
      rewrite CIntFacts.to_int_id by lia.
      split; [ intros [= <-]; split; [ reflexivity | lia ] | ].
      intros [H _]. exact H.
Qed.

(** ** [xvisbell.cpp]: the timeouts of its event loop *)

Module CppLoop.

Import Cpp.

Lemma select_loop_valid (answers : list select_answer) :
  forall wait : option Timeval.t,
    select_is_valid (Select wait) ->
    Forall answer_ok answers ->
    Forall select_is_valid (fst (select_loop wait answers)).
Proof.
  induction answers as [| a rest IH]; intros wait Hwait Hanswers;
    cbn [select_loop hd_error].
  - destruct (select wait None) as [[n | errno remaining] |];
      try (repeat constructor; exact Hwait).
    destruct (errno =? EINTR); repeat constructor; exact Hwait.
  - destruct (select wait (Some a)) as [[n | errno remaining] |] eqn:Hsel;
      try (repeat constructor; exact Hwait).
    destruct (errno =? EINTR); [ | repeat constructor; exact Hwait ].
    assert (Hnext : select_is_valid
                      (Select (option_map (fun _ => remaining) wait))).
    { destruct wait as [tv |]; cbn [option_map select_is_valid]; [ | exact I ].
      cbn [select select_is_valid] in Hsel, Hwait. rewrite Hwait in Hsel.
      injection Hsel as ->. inversion Hanswers as [| ? ? Ha _]. exact Ha. }
    inversion Hanswers as [| ? ? _ Hrest]; subst.
    specialize (IH _ Hnext Hrest).
    destruct (select_loop (option_map (fun _ => remaining) wait) rest)
      as [tr r].
    cbn [fst] in *. constructor; [ exact Hwait | exact IH ].
Qed.

Lemma wait_tv_valid (st : state) (reading : option Timeval.t)
  (tr : list action) (tv : option Timeval.t) :
  deadline_normalized st ->
  reading_ok reading ->
  wait_tv st reading = (tr, Some tv) ->
  select_is_valid (Select tv) /\ Forall select_is_valid tr.
Proof.
  unfold wait_tv, deadline_normalized. intros Hst Hreading.
  destruct (timeout_is_set st); [ | intros [= <- <-]; split; constructor ].
  destruct reading as [cur |]; [ | discriminate ].
  intros [= <- <-]. split; [ | repeat constructor ].
  cbn [select_is_valid].
  destruct (lt (future_wakeup st) cur) eqn:Hlt; [ reflexivity | ].
  apply (CppFacts.sub_micros _ _ (Hst eq_refl) Hreading Hlt).
Qed.

Lemma check_fired_keeps (st : state) (reading : option Timeval.t) :
  deadline_normalized st ->
  Forall select_is_valid (fst (check_fired st reading))
  /\ match snd (check_fired st reading) with
     | Continue st1 | Stop st1 _ => deadline_normalized st1
     end.
Proof.
  unfold check_fired. intros Hst.
  destruct (timeout_is_set st) eqn:Hset;
    [ | split; [ constructor | exact Hst ] ].
  destruct reading as [cur |];
    [ | split; [ repeat constructor | exact Hst ] ].
  destruct (lt (future_wakeup st) cur).
  - split; [ repeat constructor | ]. cbn. unfold deadline_normalized.
    cbn. discriminate.
  - split; [ repeat constructor | exact Hst ].
Qed.

Lemma handle_event_keeps (st : state) (ev : pending_event) :
  deadline_normalized st ->
  reading_ok (handled_at ev) ->
  Forall select_is_valid (fst (handle_event st ev))
  /\ match snd (handle_event st ev) with
     | Continue st1 => deadline_normalized st1
     | Stop _ _ => True
     end.
Proof.
  unfold handle_event. intros Hst Hev.
  destruct (negb (xkb_type ev =? XkbBellNotify));
    [ split; [ constructor | exact Hst ] | ].
  destruct (handled_at ev) as [now |];
    [ | split; [ repeat constructor | exact I ] ].
  split; [ repeat constructor | ]. cbn. intros _. cbn.
  apply (CppFacts.add_micros now Hev).
Qed.

Lemma drain_events_keeps (evs : list pending_event) :
  forall st : state,
    deadline_normalized st ->
    Forall (fun ev => reading_ok (handled_at ev)) evs ->
    Forall select_is_valid (fst (drain_events st evs))
    /\ match snd (drain_events st evs) with
       | Continue st1 => deadline_normalized st1
       | Stop _ _ => True
       end.
Proof.
  induction evs as [| ev rest IH]; intros st Hst Hevs; cbn [drain_events].
  - split; [ constructor | exact Hst ].
  - inversion Hevs as [| ? ? Hev Hrest]; subst.
    destruct (handle_event_keeps st ev Hst Hev) as [Htr Hnext].
    destruct (handle_event st ev) as [tr [st1 | st1 o]]; cbn [fst snd] in *.
    + destruct (IH st1 Hnext Hrest) as [Htr' Hst'].
      destruct (drain_events st1 rest) as [tr' r]. cbn [fst snd] in *.
      split; [ apply Forall_app; split; assumption | exact Hst' ].
    + split; [ exact Htr | exact I ].
Qed.

Lemma loop_iteration_keeps (st : state) (it : iteration) :
  deadline_normalized st ->
  system_ok it ->
  Forall select_is_valid (fst (loop_iteration st it))
  /\ match snd (loop_iteration st it) with
     | Continue st1 => deadline_normalized st1
     | Stop _ _ => True
     end.
Proof.
  intros Hst (Hbefore & Hanswers & Hafter & Hpending).
  unfold loop_iteration.
  pose proof (wait_tv_valid st (clock_before it)) as Hwait.
  destruct (wait_tv st (clock_before it)) as [tr1 [tv |]] eqn:Hw.
  - destruct (Hwait tr1 tv Hst Hbefore eq_refl) as [Htv Htr1].
    pose proof (select_loop_valid (select_answers it) tv Htv Hanswers) as Htr2.
    destruct (select_loop tv (select_answers it)) as [tr2 w].
    cbn [fst] in Htr2.
    destruct w; cbn [fst snd];
      try (split; [ apply Forall_app; split; assumption | exact I ]).
    destruct (check_fired_keeps st (clock_after it) Hst) as [Htr3 Hst1].
    destruct (check_fired st (clock_after it)) as [tr3 [st1 | st1 o]];
      cbn [fst snd] in *.
    + destruct (drain_events_keeps (pending it) st1 Hst1 Hpending)
        as [Htr4 Hst2].
      destruct (drain_events st1 (pending it)) as [tr4 r].
      cbn [fst snd] in *.
      split; [ repeat (apply Forall_app; split); assumption | exact Hst2 ].
    + split; [ repeat (apply Forall_app; split); assumption | exact I ].
  - cbn [fst snd]. split; [ | exact I ].
    unfold wait_tv in Hw. destruct (timeout_is_set st); [ | discriminate ].
    destruct (clock_before it); [ discriminate | ].
    injection Hw as <-. repeat constructor.
Qed.

Lemma main_loop_keeps (script : list iteration) :
  forall st : state,
    deadline_normalized st ->
    Forall system_ok script ->
    Forall select_is_valid (fst (fst (main_loop st script))).
Proof.
  induction script as [| it rest IH]; intros st Hst Hscript;
    cbn [main_loop].
  - constructor.
  - inversion Hscript as [| ? ? Hit Hrest]; subst.
    destruct (loop_iteration_keeps st it Hst Hit) as [Htr Hnext].
    destruct (loop_iteration st it) as [tr [st1 | st1 o]];
      cbn [fst snd] in *.
    + specialize (IH st1 Hnext Hrest).
      destruct (main_loop st1 rest) as [[tr' st2] o]. cbn [fst] in *.
      apply Forall_app. split; assumption.
    + exact Htr.
Qed.

End CppLoop.

(** The event loop of [xvisbell.cpp] never hands [select] an invalid
    timeout: started without a timeout set, and as long as [gettimeofday]
    reads times in normal form and an interrupted [select] leaves a valid
    remainder, every call of [select] has a null timeout or a valid
    [timeval], whatever the bells, the readings and the waits are. *)
Theorem cpp_select_timeouts_valid (garbage : Timeval.t)
  (script : list Cpp.iteration) :
  Forall Cpp.system_ok script ->
  Forall Cpp.select_is_valid
    (fst (fst (Cpp.main_loop (Cpp.mk_state false garbage) script))).
Proof.
  intros Hscript. apply CppLoop.main_loop_keeps; [ | exact Hscript ].
  unfold Cpp.deadline_normalized. cbn. discriminate.
Qed.

Lemma cpp_select_timeouts_valid_witness :
  Forall Cpp.select_is_valid
    (fst (fst (Cpp.main_loop (Cpp.mk_state false (Timeval.mk 0 0))
                 [Cpp.mk_iteration None [Cpp.Ready 1] None
                    [Cpp.mk_event XkbBellNotify (Some (Timeval.mk 10 999999))];
                  Cpp.mk_iteration (Some (Timeval.mk 11 2)) [Cpp.Ready 0]
                    (Some (Timeval.mk 11 100002)) []]))).
Proof.
  apply (cpp_select_timeouts_valid (Timeval.mk 0 0)).
  repeat constructor;
    unfold Timeval.normalized, Timeval.USEC_PER_SEC; cbn; lia.
Defined.

Lemma cpp_select_loop_null (answers : list Cpp.select_answer) :
  Forall (fun a => a = Cpp.Select None)
    (fst (Cpp.select_loop None answers)).
Proof.
  induction answers as [| a rest IH]; cbn [Cpp.select_loop hd_error Cpp.select].
  - repeat constructor.
  - destruct a as [n | errno remaining]; [ repeat constructor | ].
    destruct (errno =? EINTR); [ | repeat constructor ].
    cbn [option_map]. destruct (Cpp.select_loop None rest) as [tr r].
    cbn [fst] in *. constructor; [ reflexivity | exact IH ].
Qed.

Lemma cpp_drain_no_bell (st : Cpp.state) (evs : list Cpp.pending_event) :
  Forall (fun ev => (Cpp.xkb_type ev =? XkbBellNotify) = false) evs ->
  Cpp.drain_events st evs = ([], Cpp.Continue st).
Proof.
  intros Hevs. induction Hevs as [| ev rest Hev _ IH]; cbn [Cpp.drain_events].
  - reflexivity.
  - unfold Cpp.handle_event. rewrite Hev. cbn [negb]. rewrite IH. reflexivity.
Qed.

(** While no timeout is set and no bell rings, the loop of [xvisbell.cpp]
    blocks in [select] with a null timeout: every call it makes is such a
    [select] (again after each [EINTR]), it neither reads the clock nor
    touches the window, and its state does not change. *)
Theorem cpp_waits_without_timeout (garbage : Timeval.t)
  (script : list Cpp.iteration) :
  cpp_silent script ->
  snd (fst (Cpp.main_loop (Cpp.mk_state false garbage) script))
  = Cpp.mk_state false garbage
  /\ Forall (fun a => a = Cpp.Select None)
       (fst (fst (Cpp.main_loop (Cpp.mk_state false garbage) script))).
Proof.
  intros Hsilent.
  induction Hsilent as [| it rest Hit _ IH]; cbn [Cpp.main_loop].
  - split; [ reflexivity | constructor ].
  - unfold Cpp.loop_iteration, Cpp.wait_tv, Cpp.check_fired.
    cbn [Cpp.timeout_is_set].
    pose proof (cpp_select_loop_null (Cpp.select_answers it)) as Hsel.
    destruct (Cpp.select_loop None (Cpp.select_answers it)) as [tr2 w].
    cbn [fst app] in *.
    destruct w; try (split; [ reflexivity | exact Hsel ]).
    rewrite (cpp_drain_no_bell _ _ Hit).
    destruct (Cpp.main_loop (Cpp.mk_state false garbage) rest)
      as [[tr' st2] o].
    cbn [fst snd] in *. destruct IH as [-> Htr'].
    split; [ reflexivity | ].
    rewrite app_nil_r. apply Forall_app. split; assumption.
Qed.

Lemma cpp_waits_without_timeout_witness :
  Forall (fun a => a = Cpp.Select None)
    (fst (fst (Cpp.main_loop (Cpp.mk_state false (Timeval.mk 0 0))
                 [Cpp.mk_iteration None
                    [Cpp.Failed EINTR (Timeval.mk 0 0); Cpp.Ready 1] None
                    [Cpp.mk_event 2 None]]))).
Proof.
  refine (proj2 (cpp_waits_without_timeout (Timeval.mk 0 0)
                   [Cpp.mk_iteration None
                      [Cpp.Failed EINTR (Timeval.mk 0 0); Cpp.Ready 1] None
                      [Cpp.mk_event 2 None]] _)).
  repeat constructor.
Defined.
